(** * Bluetti BT integration: select entity and bootstrap retry

    A shallow embedding of [custom_components/bluetti_bt/select.py]
    (class [BluettiSelect] and the platform's [async_setup_entry]) and of
    [custom_components/bluetti_bt/__init__.py] ([async_setup_entry],
    [device_info], [get_unique_id]).

    Python objects become records, dictionaries become [gmap string _],
    Python integers become [Z].  A method is a computation in a small
    state-and-control monad [M]: it threads the entity, the coordinator and
    the chronological trace of observable effects (log records, state
    publications, device exchanges, timed delays), and it completes by
    falling off the end of a block, by a [return] statement or by raising.
    An [await] on an external coroutine is a suspension point: the
    environment says which snapshots the coordinator delivers to the entity
    while the coroutine is suspended, and how the awaited call ends. *)

From stdpp Require Import gmap strings list.
From Stdlib Require Import ZArith Lia Ascii.

(** ** Python values *)

(** The values that occur in a coordinator snapshot and in the extra state
    attributes.  [PyEnum cls name] is the member [name] of the [Enum] class
    [cls]; [PyDict] is a [dict] with string keys. *)
#[warnings="-register-all"]
Inductive pyvalue :=
| PyNone
| PyEnum (cls name : string)
| PyInt (z : Z)
| PyStr (s : string)
| PyBool (b : bool)
| PyDict (d : gmap string pyvalue).

(** [v is None] *)
Definition is_None (v : pyvalue) : bool :=
  match v with PyNone => true | _ => false end.

(** [isinstance(v, dict)] *)
Definition isinstance_dict (v : pyvalue) : bool :=
  match v with PyDict _ => true | _ => false end.

(** [d.get(key)]: the value stored under [key], [None] when there is none. *)
Definition dict_get (d : gmap string pyvalue) (key : string) : pyvalue :=
  default PyNone (d !! key).

(** Exceptions deriving from [Exception].  [except TimeoutError] selects the
    first constructor, [except Exception] all of them. *)
Inductive exn :=
| TimeoutError
| AttributeError
| ConfigEntryNotReady
| OtherException (cls : string).

Definition is_TimeoutError (e : exn) : bool :=
  match e with TimeoutError => true | _ => false end.

(** How a block of statements ends. *)
Inductive completion (A : Type) :=
| Normal (a : A)
| Return (v : pyvalue)
| Raise (e : exn).
Arguments Normal {A} a.
Arguments Return {A} v.
Arguments Raise {A} e.

(** How a call ends, as its caller sees it. *)
Inductive call_result :=
| Returned (v : pyvalue)
| Raised (e : exn).

(** How an awaited external coroutine ends. *)
Inductive await_result :=
| AwaitOk
| AwaitRaises (e : exn).

Inductive log_level := DEBUG | INFO | WARNING | ERROR.

(** ** Control flow

    A block of statements run in a world [W]: it ends as a [completion] and
    leaves a new world. *)

Definition ctl (W A : Type) : Type := W → completion A * W.

#[global] Instance ctl_ret {W} : MRet (ctl W) := λ A a w, (Normal a, w).
#[global] Instance ctl_bind {W} : MBind (ctl W) := λ A B f m w,
  match m w with
  | (Normal a, w') => f a w'
  | (Return v, w') => (Return v, w')
  | (Raise x, w') => (Raise x, w')
  end.

(** [return v] *)
Definition return_ {W A} (v : pyvalue) : ctl W A := λ w, (Return v, w).
(** [raise x] *)
Definition raise {W A} (x : exn) : ctl W A := λ w, (Raise x, w).
(** [if b: body] *)
Definition when {W} (b : bool) (body : ctl W unit) : ctl W unit :=
  if b then body else mret tt.

(** [try: body  except TimeoutError: handler] *)
Definition try_except_TimeoutError {W A} (body handler : ctl W A) : ctl W A :=
  λ w,
  match body w with
  | (Raise x, w') => if is_TimeoutError x then handler w' else (Raise x, w')
  | r => r
  end.

(** [try: body  except Exception as err: handler err] *)
Definition try_except_Exception {W A} (body : ctl W A) (handler : exn → ctl W A)
    : ctl W A := λ w,
  match body w with
  | (Raise err, w') => handler err w'
  | r => r
  end.

(** [try: body  finally: cleanup].  The cleanup block runs however the body
    ends; when it ends normally the body's completion stands. *)
Definition try_finally {W A} (body : ctl W A) (cleanup : ctl W unit) : ctl W A :=
  λ w,
  let '(r, w') := body w in
  match cleanup w' with
  | (Normal _, w'') => (r, w'')
  | (Return v, w'') => (Return v, w'')
  | (Raise x, w'') => (Raise x, w'')
  end.

(** A call of a method from another one: a [return] ends the callee, not the
    caller, and a body that falls off its end returns [None]. *)
Definition call {W} (body : ctl W unit) : ctl W pyvalue := λ w,
  match body w with
  | (Normal _, w') => (Normal PyNone, w')
  | (Return v, w') => (Normal v, w')
  | (Raise x, w') => (Raise x, w')
  end.

(** The result of a call started in [w], and the world it leaves. *)
Definition run {W} (body : ctl W unit) (w : W) : call_result * W :=
  match body w with
  | (Normal _, w') => (Returned PyNone, w')
  | (Return v, w') => (Returned v, w')
  | (Raise x, w') => (Raised x, w')
  end.

(** A relation between the world before and the world after that a block
    maintains however it ends. *)
Definition respects {W A} (R : W → W → Prop) (m : ctl W A) : Prop :=
  ∀ w, R w (m w).2.

(** ** [get_unique_id] ([__init__.py]) *)

Definition is_alnum (c : ascii) : bool :=
  let n := nat_of_ascii c in
  ((48 <=? n) && (n <=? 57) || (65 <=? n) && (n <=? 90)
   || (97 <=? n) && (n <=? 122))%nat.

(** [re.sub("[^A-Za-z0-9]+", "_", name)]: every maximal run of characters
    outside the class is replaced by one underscore.  [in_run] says that the
    previous character already belonged to such a run. *)
Fixpoint re_sub_non_alnum (in_run : bool) (name : string) : string :=
  match name with
  | EmptyString => EmptyString
  | String c rest =>
      if is_alnum c then String c (re_sub_non_alnum false rest)
      else if in_run then re_sub_non_alnum true rest
      else String "_"%char (re_sub_non_alnum true rest)
  end.

Definition lower_ascii (c : ascii) : ascii :=
  let n := nat_of_ascii c in
  if ((65 <=? n) && (n <=? 90))%nat then ascii_of_nat (n + 32) else c.

Fixpoint lower (s : string) : string :=
  match s with
  | EmptyString => EmptyString
  | String c rest => String (lower_ascii c) (lower rest)
  end.

Definition get_unique_id (name : string) (sensor_type : option string) : string :=
  let res := lower (re_sub_non_alnum false name) in
  match sensor_type with
  | Some t => t +:+ "." +:+ res
  | None => res
  end.

(** *** Shapes of identifiers *)

(** A lower-case letter or a digit. *)
Definition is_lower_alnum (c : ascii) : bool :=
  let n := nat_of_ascii c in
  ((48 <=? n) && (n <=? 57) || (97 <=? n) && (n <=? 122))%nat.

Definition is_underscore (c : ascii) : bool := (c =? "_")%char.

(** The characters of an identifier: lower-case letters, digits and the
    underscore. *)
Definition is_id_char (c : ascii) : bool := is_lower_alnum c || is_underscore c.

(** No two underscores follow one another in [s]; with [after_underscore]
    the string may not start with one either. *)
Fixpoint no_adjacent_underscores (after_underscore : bool) (s : string) : bool :=
  match s with
  | EmptyString => true
  | String c rest =>
      if is_underscore c
      then negb after_underscore && no_adjacent_underscores true rest
      else no_adjacent_underscores false rest
  end.

(** A non-empty string of characters outside [A-Za-z0-9]. *)
Definition is_separator (s : string) : bool :=
  match s with
  | EmptyString => false
  | _ => forallb (λ c, negb (is_alnum c)) (String.list_ascii_of_string s)
  end.


(** ** The select entity ([select.py]) *)

Module Select.

(** [bluetti_bt_lib.fields.SelectField]: the field name and its [Enum] class
    [e], given by the class name and the names of its members. *)
Record Enum := { cls_name : string; members : list string }.
Record SelectField := { name : string; e : Enum }.

(** [isinstance(v, enum_cls)] *)
Definition isinstance (v : pyvalue) (enum_cls : Enum) : bool :=
  match v with
  | PyEnum cls _ => bool_decide (cls = enum_cls.(cls_name))
  | _ => false
  end.

(** The transport client and the encryption session held by the
    coordinator's reader; only the two predicates are read here. *)
Record BleakClient := { is_connected : bool }.
Record BluettiEncryption := { is_ready_for_commands : bool }.
Record DeviceReader := {
  client : option BleakClient;
  encryption : option BluettiEncryption
}.

(** The part of [PollingCoordinator] the entity reads.  [reader = None]
    stands for a coordinator without a [reader] attribute ([hasattr] is
    false); [data] is the last published snapshot. *)
Record PollingCoordinator := {
  reader : option DeviceReader;
  data : pyvalue
}.

(** The mutable and the configuration attributes of a [BluettiSelect] that
    its methods read or assign.  [current_option = None] and
    [_attr_extra_state_attributes = None] stand for an attribute that was
    never assigned. *)
Record BluettiSelect := {
  _address : string;
  _field : SelectField;
  _response_key : string;
  _unavailable_counter : Z;
  _use_encryption : bool;
  _attr_options : list string;
  _attr_available : bool;
  _attr_extra_state_attributes : option (gmap string pyvalue);
  _attr_unique_id : string;
  current_option : option string;
  _write_in_progress : bool
}.

(** What the host framework reads from the entity when the entity publishes
    its state. *)
Record ha_state := {
  state : option string;
  available : bool;
  extra_state_attributes : option (gmap string pyvalue)
}.

(** Observable effects, in the order in which they happen. *)
Inductive event :=
| Log (level : log_level) (msg : string)
| WriteHaState (published : ha_state)
| WriterWrite (address : string) (timeout : Z) (use_encryption : bool)
    (shared_client : option BleakClient)
    (shared_encryption : option BluettiEncryption)
    (field_name value : string)
| Sleep (seconds : Z)
| AsyncRefresh.

Record world := {
  self : BluettiSelect;
  coordinator : PollingCoordinator;
  trace : list event
}.

Abbreviation M := (ctl world).

Definition get_self : M BluettiSelect := λ w, (Normal w.(self), w).
Definition get_coordinator : M PollingCoordinator :=
  λ w, (Normal w.(coordinator), w).
Definition modify_self (f : BluettiSelect → BluettiSelect) : M unit := λ w,
  (Normal tt,
   {| self := f w.(self); coordinator := w.(coordinator); trace := w.(trace) |}).
Definition emit (ev : event) : M unit := λ w,
  (Normal tt,
   {| self := w.(self); coordinator := w.(coordinator);
      trace := w.(trace) ++ [ev] |}).
(** The coordinator stores a new snapshot in [coordinator.data]. *)
Definition set_data (d : pyvalue) : M unit := λ w,
  (Normal tt,
   {| self := w.(self);
      coordinator := {| reader := w.(coordinator).(reader); data := d |};
      trace := w.(trace) |}).

Definition logger (level : log_level) (msg : string) : M unit :=
  emit (Log level msg).

(** Attribute assignments [self.x = v]. *)
Definition set__unavailable_counter (v : Z) (s : BluettiSelect) : BluettiSelect :=
  {| _address := s.(_address); _field := s.(_field);
     _response_key := s.(_response_key); _unavailable_counter := v;
     _use_encryption := s.(_use_encryption); _attr_options := s.(_attr_options);
     _attr_available := s.(_attr_available);
     _attr_extra_state_attributes := s.(_attr_extra_state_attributes);
     _attr_unique_id := s.(_attr_unique_id);
     current_option := s.(current_option);
     _write_in_progress := s.(_write_in_progress) |}.
Definition set__attr_available (v : bool) (s : BluettiSelect) : BluettiSelect :=
  {| _address := s.(_address); _field := s.(_field);
     _response_key := s.(_response_key);
     _unavailable_counter := s.(_unavailable_counter);
     _use_encryption := s.(_use_encryption); _attr_options := s.(_attr_options);
     _attr_available := v;
     _attr_extra_state_attributes := s.(_attr_extra_state_attributes);
     _attr_unique_id := s.(_attr_unique_id);
     current_option := s.(current_option);
     _write_in_progress := s.(_write_in_progress) |}.
Definition set__attr_extra_state_attributes (v : gmap string pyvalue)
    (s : BluettiSelect) : BluettiSelect :=
  {| _address := s.(_address); _field := s.(_field);
     _response_key := s.(_response_key);
     _unavailable_counter := s.(_unavailable_counter);
     _use_encryption := s.(_use_encryption); _attr_options := s.(_attr_options);
     _attr_available := s.(_attr_available);
     _attr_extra_state_attributes := Some v;
     _attr_unique_id := s.(_attr_unique_id);
     current_option := s.(current_option);
     _write_in_progress := s.(_write_in_progress) |}.
Definition set_current_option (v : string) (s : BluettiSelect) : BluettiSelect :=
  {| _address := s.(_address); _field := s.(_field);
     _response_key := s.(_response_key);
     _unavailable_counter := s.(_unavailable_counter);
     _use_encryption := s.(_use_encryption); _attr_options := s.(_attr_options);
     _attr_available := s.(_attr_available);
     _attr_extra_state_attributes := s.(_attr_extra_state_attributes);
     _attr_unique_id := s.(_attr_unique_id);
     current_option := Some v;
     _write_in_progress := s.(_write_in_progress) |}.
Definition set__write_in_progress (v : bool) (s : BluettiSelect) : BluettiSelect :=
  {| _address := s.(_address); _field := s.(_field);
     _response_key := s.(_response_key);
     _unavailable_counter := s.(_unavailable_counter);
     _use_encryption := s.(_use_encryption); _attr_options := s.(_attr_options);
     _attr_available := s.(_attr_available);
     _attr_extra_state_attributes := s.(_attr_extra_state_attributes);
     _attr_unique_id := s.(_attr_unique_id);
     current_option := s.(current_option);
     _write_in_progress := v |}.

(** [BluettiSelect.__init__].  [device_name] is [device_info.get('name')] as
    the f-string renders it.  The constructor assigns neither
    [current_option] nor the extra state attributes. *)
Definition __init__ (address device_name : string) (field : SelectField)
    (use_encryption : bool) : BluettiSelect :=
  let e_name := device_name +:+ " " +:+ field.(name) in
  {| _address := address;
     _field := field;
     _response_key := field.(name);
     _unavailable_counter := 5;
     _use_encryption := use_encryption;
     _attr_options := field.(e).(members);
     _attr_available := false;
     _attr_extra_state_attributes := None;
     _attr_unique_id := get_unique_id e_name None;
     current_option := None;
     _write_in_progress := false |}.

(** The attributes that only [__init__] assigns. *)
Definition configuration (s : BluettiSelect)
    : string * SelectField * string * bool * list string * string :=
  (s.(_address), s.(_field), s.(_response_key), s.(_use_encryption),
   s.(_attr_options), s.(_attr_unique_id)).

(** The [available] property. *)
Definition available_ (s : BluettiSelect) : bool := s.(_attr_available).

(** What the host reads when the entity publishes its state: its current
    value (read only of an available entity), its availability and its
    extra state attributes. *)
Definition ha_state_of (s : BluettiSelect) : ha_state :=
  {| state := s.(current_option);
     available := available_ s;
     extra_state_attributes := s.(_attr_extra_state_attributes) |}.

(** The host computes the state of an available entity from
    [current_option].  [__init__] does not assign that attribute and the
    host class gives it no default: until the first assignment the read
    fails, and with it the state write of an available entity. *)
Definition state_write_raises (s : BluettiSelect) : bool :=
  match s.(current_option) with
  | Some _ => false
  | None => available_ s
  end.

(** [self.async_write_ha_state()] *)
Definition async_write_ha_state : M unit :=
  s ← get_self;
  if state_write_raises s then raise AttributeError
  else emit (WriteHaState (ha_state_of s)).

Definition _set_available : M unit :=
  modify_self (set__attr_available true);;
  modify_self (set__unavailable_counter 0);;
  modify_self (set__attr_extra_state_attributes ∅);;
  async_write_ha_state.

(** The dictionary literal of lines 126-130. *)
Definition stale_attributes (counter : Z) (cause : string)
    : gmap string pyvalue :=
  <["unavailable_counter" := PyInt counter]>
    (<["unavailable_cause" := PyStr cause]>
       (<["data_stale" := PyBool true]> ∅)).

Definition _set_unavailable (cause : string) : M unit :=
  s ← get_self;
  modify_self (set__unavailable_counter (s.(_unavailable_counter) + 1));;
  s ← get_self;
  modify_self (set__attr_extra_state_attributes
    (stale_attributes s.(_unavailable_counter) cause));;
  async_write_ha_state.

Definition _handle_coordinator_update : M unit :=
  s ← get_self;
  when s.(_write_in_progress) (
    logger DEBUG "Write in progress for %s, skipping coordinator update";;
    return_ PyNone);;
  c ← get_coordinator;
  when (is_None c.(data)) (
    logger DEBUG "Data from coordinator is None";;
    _set_unavailable "Data is None";;
    return_ PyNone);;
  logger DEBUG "Updating state of %s";;
  match c.(data) with
  | PyDict d =>
      let response_data := dict_get d s.(_response_key) in
      when (is_None response_data) (
        _set_unavailable "No data";;
        return_ PyNone);;
      when (negb (isinstance response_data s.(_field).(e))) (
        logger WARNING
          "Invalid response data type from coordinator (select.%s): %s";;
        _set_unavailable "Invalid data type";;
        return_ PyNone);;
      _set_available;;
      match response_data with
      | PyEnum _ member_name =>
          modify_self (set_current_option member_name);;
          async_write_ha_state
      | _ => raise AttributeError
      end
  | _ =>
      logger DEBUG "Invalid data from coordinator (select.%s)";;
      _set_unavailable "Invalid data";;
      return_ PyNone
  end.

(** *** Suspension points *)

(** A listener callback invoked by the coordinator: its completion, an
    exception included, stays with the coordinator and is not seen by a task
    that is suspended meanwhile. *)
Definition callback (body : M unit) : M unit := λ w, (Normal tt, (body w).2).

(** The coordinator publishes [snapshot] and notifies the entity. *)
Definition deliver (snapshot : pyvalue) : M unit :=
  set_data snapshot;;
  callback _handle_coordinator_update.

Fixpoint deliver_all (snapshots : list pyvalue) : M unit :=
  match snapshots with
  | [] => mret tt
  | d :: rest => deliver d;; deliver_all rest
  end.

(** The world after the deliveries. *)
Definition delivered (snapshots : list pyvalue) (w : world) : world :=
  (deliver_all snapshots w).2.

(** The world after one more event. *)
Definition emitted (ev : event) (w : world) : world := (emit ev w).2.

(** The world after an assignment to an attribute of the entity. *)
Definition assigned (f : BluettiSelect → BluettiSelect) (w : world) : world :=
  (modify_self f w).2.

(** [await] on an external coroutine recorded as [ev]: while the task is
    suspended the coordinator delivers [snapshots]; then the coroutine ends
    as [r] says. *)
Definition await (ev : event) (snapshots : list pyvalue) (r : await_result)
    : M unit :=
  emit ev;;
  deliver_all snapshots;;
  match r with
  | AwaitOk => mret tt
  | AwaitRaises x => raise x
  end.

(** Modelled from the spec: the result of [PollingCoordinator.async_refresh]
    ([coordinator.py] is not among the sources).  The spec gives
    [refresh() -> DataSnapshot | Error] and says that failures while polling
    are recovered locally and never surfaced as fatal: the call hands its
    caller one of the two results and does not raise. *)
Inductive refresh_result :=
| DataSnapshot
| RefreshError (cause : exn).

(** Modelled from the spec: [await self.coordinator.async_refresh()].  The
    listeners are notified with [snapshots] while the caller is suspended. *)
Definition async_refresh (snapshots : list pyvalue) (r : refresh_result)
    : M refresh_result :=
  emit AsyncRefresh;;
  deliver_all snapshots;;
  mret r.

(** What the environment does during one [write_to_device]: the snapshots
    delivered at each of the three suspension points, how [writer.write]
    ends, and what the follow-up refresh yields. *)
Record write_env := {
  during_write : list pyvalue;
  write_result : await_result;
  during_sleep : list pyvalue;
  during_refresh : list pyvalue;
  refresh_yields : refresh_result
}.

(** *** [write_to_device] *)

(** The condition of the [if] at lines 209-215. *)
Definition reuse_condition (c : PollingCoordinator) : bool :=
  match c.(reader) with
  | Some rd =>
      match rd.(client) with
      | Some cl =>
          cl.(is_connected) &&
          match rd.(encryption) with
          | Some enc => enc.(is_ready_for_commands)
          | None => false
          end
      | None => false
      end
  | None => false
  end.

(** Lines 206-222: [(shared_client, shared_encryption, timeout)]. *)
Definition choose_connection (c : PollingCoordinator)
    : M (option BleakClient * option BluettiEncryption * Z) :=
  if reuse_condition c then
    logger DEBUG "Reusing coordinator's connection";;
    mret (c.(reader) ≫= client, c.(reader) ≫= encryption, 10%Z)
  else
    logger DEBUG "Coordinator connection not available, creating new connection";;
    mret (None, None, 45%Z).

(** Lines 204-246: the [try] block with its [except TimeoutError] clause. *)
Definition write_to_device_try (env : write_env) (state : string) : M unit :=
  try_except_TimeoutError (
    c ← get_coordinator;
    s ← get_self;
    '(shared_client, shared_encryption, timeout) ← choose_connection c;
    await (WriterWrite s.(_address) timeout s.(_use_encryption)
             shared_client shared_encryption s.(_field).(name) state)
          env.(during_write) env.(write_result);;
    await (Sleep 3) env.(during_sleep) AwaitOk
  ) (
    logger ERROR "Timed out for device %s";;
    return_ PyNone
  ).

Definition write_to_device (env : write_env) (state : string) : M unit :=
  try_finally
    (write_to_device_try env state)
    (modify_self (set__write_in_progress false));;
  _ ← async_refresh env.(during_refresh) env.(refresh_yields);
  mret tt.

(** The event of the device exchange that a write started in [w] performs. *)
Definition exchange_event (state : string) (w : world) : event :=
  let c := w.(coordinator) in
  let s := w.(self) in
  if reuse_condition c then
    WriterWrite s.(_address) 10 s.(_use_encryption)
      (c.(reader) ≫= client) (c.(reader) ≫= encryption)
      s.(_field).(name) state
  else
    WriterWrite s.(_address) 45 s.(_use_encryption) None None
      s.(_field).(name) state.

(** The world in which [writer.write] ends, for a write started in [w]. *)
Definition after_exchange (env : write_env) (state : string) (w : world)
    : world :=
  delivered env.(during_write)
    (emitted (exchange_event state w)
       (emitted
          (Log DEBUG
             (if reuse_condition w.(coordinator)
              then "Reusing coordinator's connection"
              else "Coordinator connection not available, creating new connection"))
          w)).

(** The environment [env] with another follow-up refresh. *)
Definition with_refresh (env : write_env) (snapshots : list pyvalue)
    (r : refresh_result) : write_env :=
  {| during_write := env.(during_write);
     write_result := env.(write_result);
     during_sleep := env.(during_sleep);
     during_refresh := snapshots;
     refresh_yields := r |}.

(** Lines 188-197 of [async_select_option]: everything before the
    [await self.write_to_device(option)]. *)
Definition async_select_option_optimistic (option : string) : M unit :=
  logger DEBUG "Set %s on %s to %s";;
  modify_self (set_current_option option);;
  modify_self (set__write_in_progress true);;
  async_write_ha_state.

Definition async_select_option (env : write_env) (option : string) : M unit :=
  async_select_option_optimistic option;;
  _ ← call (write_to_device env option);
  mret tt.

(** *** Sequences of operations on one entity *)

Inductive op :=
| Update (snapshot : pyvalue)
| SelectOption (env : write_env) (option : string)
| ReaderChange (rd : option DeviceReader).

Definition set_reader (rd : option DeviceReader) : M unit := λ w,
  (Normal tt,
   {| self := w.(self);
      coordinator := {| reader := rd; data := w.(coordinator).(data) |};
      trace := w.(trace) |}).

Definition step (w : world) (o : op) : world :=
  match o with
  | Update snapshot => (deliver snapshot w).2
  | SelectOption env option => (run (async_select_option env option) w).2
  | ReaderChange rd => (set_reader rd w).2
  end.

Definition run_ops (ops : list op) (w : world) : world := foldl step w ops.

(** The snapshots that an operation delivers to the entity. *)
Definition snapshots_of (o : op) : list pyvalue :=
  match o with
  | Update snapshot => [snapshot]
  | SelectOption env _ =>
      env.(during_write) ++ env.(during_sleep) ++ env.(during_refresh)
  | ReaderChange _ => []
  end.

(** All snapshots delivered in a sequence of operations, in order. *)
Definition snapshots_of_ops (ops : list op) : list pyvalue :=
  concat (map snapshots_of ops).

(** *** The reuse decision in the words of the specification *)

(** The poller holds a connection handle. *)
Definition handle_exists (c : PollingCoordinator) : bool :=
  match c.(reader) ≫= client with Some _ => true | None => false end.

(** The handle reports [connected]. *)
Definition connected (c : PollingCoordinator) : bool :=
  match c.(reader) ≫= client with
  | Some cl => cl.(is_connected)
  | None => false
  end.

(** The handle reports [readyForCommands]: the encryption session exists
    and is fully established. *)
Definition readyForCommands (c : PollingCoordinator) : bool :=
  match c.(reader) ≫= encryption with
  | Some enc => enc.(is_ready_for_commands)
  | None => false
  end.

(** *** Classification of snapshots and of trace events *)

(** The snapshot holds valid, correctly typed data for the entity's field:
    it is a mapping and the value under the response key is a member of the
    field's enumeration. *)
Definition valid_snapshot (s : BluettiSelect) (snapshot : pyvalue) : bool :=
  match snapshot with
  | PyDict d => isinstance (dict_get d s.(_response_key)) s.(_field).(e)
  | _ => false
  end.

(** The four ways in which a snapshot fails to provide the field. *)
Inductive snapshot_failure := Absent | NotAMapping | FieldMissing | WrongType.

Definition classify (s : BluettiSelect) (snapshot : pyvalue)
    : option snapshot_failure :=
  match snapshot with
  | PyNone => Some Absent
  | PyDict d =>
      match dict_get d s.(_response_key) with
      | PyNone => Some FieldMissing
      | v => if isinstance v s.(_field).(e) then None else Some WrongType
      end
  | _ => Some NotAMapping
  end.

Definition cause_of (f : snapshot_failure) : string :=
  match f with
  | Absent => "Data is None"
  | NotAMapping => "Invalid data"
  | FieldMissing => "No data"
  | WrongType => "Invalid data type"
  end.

(** The world in which the handler calls [_set_unavailable] for a failure of
    class [f]: the log records written on the way are in the trace. *)
Definition failure_logged (f : snapshot_failure) (w : world) : world :=
  match f with
  | Absent => emitted (Log DEBUG "Data from coordinator is None") w
  | NotAMapping =>
      emitted (Log DEBUG "Invalid data from coordinator (select.%s)")
        (emitted (Log DEBUG "Updating state of %s") w)
  | FieldMissing => emitted (Log DEBUG "Updating state of %s") w
  | WrongType =>
      emitted (Log WARNING
                 "Invalid response data type from coordinator (select.%s): %s")
        (emitted (Log DEBUG "Updating state of %s") w)
  end.

(** The unavailable counter in the words of the specification: reset to 0
    by an update with valid data, one more after any other update. *)
Definition spec_unavailable_counter (s : BluettiSelect) (counter : Z)
    (snapshots : list pyvalue) : Z :=
  foldl (λ n d, if valid_snapshot s d then 0 else n + 1)%Z counter snapshots.

(** The calls on external collaborators in a trace: device exchanges, timed
    delays and refreshes, without the log records and the publications. *)
Definition is_external_call (ev : event) : bool :=
  match ev with
  | WriterWrite _ _ _ _ _ _ _ | Sleep _ | AsyncRefresh => true
  | _ => false
  end.

Definition external_calls (tr : list event) : list event :=
  filter (λ ev, is_external_call ev = true) tr.

Definition is_publication (ev : event) : bool :=
  match ev with WriteHaState _ => true | _ => false end.

Definition publications (tr : list event) : list event :=
  filter (λ ev, is_publication ev = true) tr.

(** What no delivery changes: the reader, the configuration, the
    write-in-progress flag and the calls on external collaborators; the
    trace only grows. *)
Definition unchanged_by_delivery (w w' : world) : Prop :=
  w'.(coordinator).(reader) = w.(coordinator).(reader) ∧
  configuration w'.(self) = configuration w.(self) ∧
  w'.(self).(_write_in_progress) = w.(self).(_write_in_progress) ∧
  external_calls w'.(trace) = external_calls w.(trace) ∧
  ∃ new, w'.(trace) = w.(trace) ++ new.

(** *** A concrete entity, used to run the definitions *)

Definition example_field : SelectField :=
  {| name := "charging_mode";
     e := {| cls_name := "ChargingMode";
             members := ["STANDARD"; "SILENT"; "TURBO"] |} |}.

Definition example_entity : BluettiSelect :=
  __init__ "AA:BB:CC:DD:EE:FF" "AC180" example_field true.

Definition example_world : world :=
  {| self := example_entity;
     coordinator := {| reader := None; data := PyNone |};
     trace := [] |}.

(** A snapshot with valid data for the field of [example_entity]. *)
Definition example_snapshot : pyvalue :=
  PyDict (<["charging_mode" := PyEnum "ChargingMode" "SILENT"]> ∅).

(** A write during which the coordinator delivers [example_snapshot] and
    whose exchange completes. *)
Definition example_env : write_env :=
  {| during_write := [example_snapshot];
     write_result := AwaitOk;
     during_sleep := [];
     during_refresh := [];
     refresh_yields := DataSnapshot |}.

(** The same write with an exchange that raises [x]. *)
Definition example_env_raising (x : exn) : write_env :=
  {| during_write := [example_snapshot];
     write_result := AwaitRaises x;
     during_sleep := [];
     during_refresh := [];
     refresh_yields := DataSnapshot |}.

(** The world of [example_entity] while a write is in progress. *)
Definition example_world_writing : world :=
  (async_select_option_optimistic "TURBO" example_world).2.

(** The world of [example_entity] after an update with valid data and a
    select of [TURBO] whose exchange timed out: the entity is available and
    shows [TURBO]. *)
Definition example_world_selected : world :=
  run_ops [Update example_snapshot;
           SelectOption (example_env_raising TimeoutError) "TURBO"]
    example_world.

(** A coordinator whose reader holds a connected, ready connection. *)
Definition example_ready_world : world :=
  {| self := example_entity;
     coordinator :=
       {| reader := Some {| client := Some {| is_connected := true |};
                            encryption :=
                              Some {| is_ready_for_commands := true |} |};
          data := PyNone |};
     trace := [] |}.

(** *** Accounting of operations and of external calls *)

Definition is_exchange (ev : event) : bool :=
  match ev with WriterWrite _ _ _ _ _ _ _ => true | _ => false end.
Definition is_sleep (ev : event) : bool :=
  match ev with Sleep _ => true | _ => false end.
Definition is_refresh (ev : event) : bool :=
  match ev with AsyncRefresh => true | _ => false end.

(** The number of events of a kind in a trace. *)
Definition count (kind : event → bool) (tr : list event) : nat :=
  length (filter (λ ev, kind ev = true) tr).

(** The number of selects in a sequence of operations, and the number of
    those whose device exchange completes. *)
Definition is_select (o : op) : bool :=
  match o with SelectOption _ _ => true | _ => false end.
Definition is_completed_select (o : op) : bool :=
  match o with
  | SelectOption env _ =>
      match env.(write_result) with AwaitOk => true | AwaitRaises _ => false end
  | _ => false
  end.
Definition selects (ops : list op) : nat :=
  length (filter (λ o, is_select o = true) ops).
Definition completed_selects (ops : list op) : nat :=
  length (filter (λ o, is_completed_select o = true) ops).

(** *** The value shown by the entity *)

(** The option that a snapshot names for the entity's field. *)
Definition option_of (s : BluettiSelect) (snapshot : pyvalue) : option string :=
  match snapshot with
  | PyDict d =>
      match dict_get d s.(_response_key) with
      | PyEnum _ member_name => Some member_name
      | _ => None
      end
  | _ => None
  end.

(** The current option after a list of updates, as a fold: an update with
    valid data shows the option it names, any other update keeps the one
    shown before. *)
Definition spec_current_option (s : BluettiSelect) (shown : option string)
    (snapshots : list pyvalue) : option string :=
  foldl (λ cur d, if valid_snapshot s d then option_of s d else cur)
    shown snapshots.

(** The published staleness attributes agree with the counter: they are
    unset, or empty with a counter of 0, or they carry the counter. *)
Definition attributes_follow_counter (s : BluettiSelect) : Prop :=
  s.(_attr_extra_state_attributes) = None ∨
  (s.(_attr_extra_state_attributes) = Some ∅ ∧ s.(_unavailable_counter) = 0%Z) ∨
  ∃ cause, s.(_attr_extra_state_attributes) =
             Some (stale_attributes s.(_unavailable_counter) cause).

End Select.

(** ** Integration setup ([__init__.py]) *)

Module Init.

Record FullDeviceConfig := {
  address : string;
  name : string;
  dev_type : string;
  use_encryption : bool
}.

Inductive Platform := BINARY_SENSOR | SENSOR | SWITCH | SELECT.

Definition PLATFORMS : list Platform := [BINARY_SENSOR; SENSOR; SWITCH; SELECT].

(** The objects stored in the per-entry registry. *)
Inductive registered :=
| Coordinator (config : FullDeviceConfig)
| Lock.

Inductive event :=
| Log (level : log_level) (msg : string)
| FirstRefresh
| Sleep (seconds : Z)
| ForwardEntrySetups (platforms : list Platform).

(** [hass.data] restricted to string keys, and the trace of effects. *)
Record world := {
  hass_data : gmap string (gmap string (gmap string registered));
  trace : list event
}.

Abbreviation M := (ctl world).

Definition emit (ev : event) : M unit := λ w,
  (Normal tt, {| hass_data := w.(hass_data); trace := w.(trace) ++ [ev] |}).

Definition logger (level : log_level) (msg : string) : M unit :=
  emit (Log level msg).

Definition modify_data
    (f : gmap string (gmap string (gmap string registered)) →
         gmap string (gmap string (gmap string registered))) : M unit := λ w,
  (Normal tt, {| hass_data := f w.(hass_data); trace := w.(trace) |}).

(** [d.setdefault(key, value)]: stores [value] unless [key] is present. *)
Definition setdefault {V} (key : string) (value : V) (d : gmap string V)
    : gmap string V :=
  match d !! key with
  | Some _ => d
  | None => <[key := value]> d
  end.

(** [await] on an external coroutine recorded as [ev] that ends as [r]. *)
Definition await (ev : event) (r : await_result) : M unit :=
  emit ev;;
  match r with
  | AwaitOk => mret tt
  | AwaitRaises x => raise x
  end.

(** How one iteration of a [for] loop hands over: to the next iteration, or
    out of the loop by [break]. *)
Inductive loop_control := Continue | Break.

Section Setup.

(** The constants of [const.py]. *)
Variables DOMAIN DATA_COORDINATOR DATA_LOCK : string.

Definition max_initial_attempts : nat := 5.
Definition initial_retry_delay : Z := 5.

(** Lines 69-101: the body of the retry loop for one value of [attempt].
    [outcome] is how [coordinator.async_config_entry_first_refresh()] ends
    in this attempt. *)
Definition initial_fetch_attempt (attempt : nat) (outcome : await_result)
    : M loop_control :=
  try_except_Exception (
    logger INFO "Initial data fetch attempt %d/%d for %s";;
    await FirstRefresh outcome;;
    logger INFO "Initial data fetch successful for %s";;
    mret Break
  ) (λ err,
    if (attempt <? max_initial_attempts)%nat then
      logger WARNING
        "Initial data fetch failed for %s, retrying in %ds (attempt %d/%d): %s";;
      await (Sleep initial_retry_delay) AwaitOk;;
      mret Continue
    else
      logger WARNING
        "Initial data fetch failed after %d attempts for %s, will retry via normal polling schedule: %s";;
      mret Continue
  ).

(** Lines 68-101: [for attempt in attempts].  [first_refresh k] is the
    outcome of the first refresh in attempt [k]. *)
Fixpoint initial_fetch_loop (first_refresh : nat → await_result)
    (attempts : list nat) : M unit :=
  match attempts with
  | [] => mret tt
  | attempt :: rest =>
      c ← initial_fetch_attempt attempt (first_refresh attempt);
      match c with
      | Break => mret tt
      | Continue => initial_fetch_loop first_refresh rest
      end
  end.

(** [async_setup_entry].  [config] is [FullDeviceConfig.from_dict(entry.data)],
    [address_present] the answer of [bluetooth.async_address_present]. *)
Definition async_setup_entry (entry_id : string)
    (config : option FullDeviceConfig) (address_present : bool)
    (first_refresh : nat → await_result) : M unit :=
  match config with
  | None => return_ (PyBool false)
  | Some config =>
      logger DEBUG "Init Bluetti BT Integration";;
      when (negb address_present) (raise ConfigEntryNotReady);;
      modify_data (setdefault DOMAIN ∅);;
      modify_data (λ d,
        <[DOMAIN := setdefault entry_id ∅ (default ∅ (d !! DOMAIN))]> d);;
      logger DEBUG "Creating coordinator";;
      let coordinator := Coordinator config in
      initial_fetch_loop first_refresh (seq 1 max_initial_attempts);;
      modify_data (λ d,
        let entries := default ∅ (d !! DOMAIN) in
        <[DOMAIN :=
            <[entry_id :=
                setdefault DATA_COORDINATOR coordinator
                  (default ∅ (entries !! entry_id))]> entries]> d);;
      modify_data (λ d,
        let entries := default ∅ (d !! DOMAIN) in
        <[DOMAIN :=
            <[entry_id :=
                setdefault DATA_LOCK Lock
                  (default ∅ (entries !! entry_id))]> entries]> d);;
      logger DEBUG "Creating entities";;
      emit (ForwardEntrySetups PLATFORMS);;
      logger DEBUG "Setup done";;
      return_ (PyBool true)
  end.

End Setup.

(** The calls on external collaborators in a trace: refresh attempts, timed
    delays and the platform setup, without the log records. *)
Definition is_external_call (ev : event) : bool :=
  match ev with Log _ _ => false | _ => true end.

Definition external_calls (tr : list event) : list event :=
  filter (λ ev, is_external_call ev = true) tr.

Definition is_attempt (ev : event) : bool :=
  match ev with FirstRefresh => true | _ => false end.

(** The number of refresh attempts in a trace. *)
Definition attempts_made (tr : list event) : nat :=
  length (filter (λ ev, is_attempt ev = true) tr).

Definition succeeds (r : await_result) : bool :=
  match r with AwaitOk => true | AwaitRaises _ => false end.

(** [hass.data[domain][entry_id][key]], when the three keys are present. *)
Definition registry_get (d : gmap string (gmap string (gmap string registered)))
    (domain entry_id key : string) : option registered :=
  entries ← d !! domain; entry ← entries !! entry_id; entry !! key.

(** *** A concrete setup, used to run the definitions *)

Definition example_config : FullDeviceConfig :=
  {| address := "AA:BB:CC:DD:EE:FF"; name := "AC180";
     dev_type := "AC180"; use_encryption := true |}.

(** A host without any registered data. *)
Definition empty_world : world := {| hass_data := ∅; trace := [] |}.

(** *** [device_info] *)

(** [homeassistant.helpers.entity.DeviceInfo], with the four keys that
    [device_info] sets. *)
Record DeviceInfo := {
  info_identifiers : list (string * string);
  info_name : string;
  info_manufacturer : string;
  info_model : string
}.

(** [device_info(entry)].  [config] is [FullDeviceConfig.from_dict(entry.data)],
    [title] is [entry.title]; [DOMAIN] and [MANUFACTURER] are the constants
    of [const.py]. *)
Definition device_info (DOMAIN MANUFACTURER : string)
    (config : option FullDeviceConfig) (title : string) : option DeviceInfo :=
  match config with
  | None => None
  | Some config =>
      Some {| info_identifiers := [(DOMAIN, config.(address))];
              info_name := title;
              info_manufacturer := MANUFACTURER;
              info_model := config.(dev_type) |}
  end.

End Init.

(** ** Setup of the select platform ([select.py], [async_setup_entry]) *)

Module SelectSetup.

(** The platform reads the registry that the integration setup fills and
    hands the entities it creates to the host. *)
Inductive event :=
| Log (level : log_level) (msg : string)
| AddEntities (entities : list Select.BluettiSelect).

Record world := {
  hass_data : gmap string (gmap string (gmap string Init.registered));
  trace : list event
}.

Abbreviation M := (ctl world).

Definition emit (ev : event) : M unit := λ w,
  (Normal tt, {| hass_data := w.(hass_data); trace := w.(trace) ++ [ev] |}).

Definition logger (level : log_level) (msg : string) : M unit :=
  emit (Log level msg).

Definition get_hass_data
    : M (gmap string (gmap string (gmap string Init.registered))) :=
  λ w, (Normal w.(hass_data), w).

Definition KeyError : exn := OtherException "KeyError".

(** [d[key]]: raises [KeyError] when [key] is missing. *)
Definition subscript {V} (d : gmap string V) (key : string) : M V :=
  match d !! key with
  | Some v => mret v
  | None => raise KeyError
  end.

(** How a call into [bluetti_bt_lib] or [types.py] ends. *)
Inductive library_result (A : Type) :=
| Gives (a : A)
| Fails (x : exn).
Arguments Gives {A} a.
Arguments Fails {A} x.

Definition library {A} (r : library_result A) : M A :=
  match r with
  | Gives a => mret a
  | Fails x => raise x
  end.

(** [isinstance(coordinator, PollingCoordinator)] *)
Definition isinstance_PollingCoordinator (r : Init.registered) : bool :=
  match r with Init.Coordinator _ => true | Init.Lock => false end.

(** [config is None] *)
Definition config_is_None (config : option Init.FullDeviceConfig) : bool :=
  match config with None => true | Some _ => false end.

Section Setup.

(** The constants of [const.py]. *)
Variables DOMAIN DATA_COORDINATOR DATA_LOCK MANUFACTURER : string.

(** [build_device(name).get_select_fields()] for a device name, and
    [get_category(FieldName(field_name))] for a field name: the library
    decides how they end. *)
Variable get_select_fields : string → library_result (list Select.SelectField).
Variable get_category : string → library_result unit.

(** [BluettiSelect(bluetti_device, config.address, coordinator, device_info,
    field, lock, use_encryption=config.use_encryption, ...)]: the
    constructor reads [device_info.get('name')], which fails on [None]. *)
Definition BluettiSelect (config : Init.FullDeviceConfig)
    (device_info : option Init.DeviceInfo) (field : Select.SelectField)
    : M Select.BluettiSelect :=
  match device_info with
  | None => raise AttributeError
  | Some info =>
      mret (Select.__init__ config.(Init.address) info.(Init.info_name) field
              config.(Init.use_encryption))
  end.

(** Lines 52-67: the loop that fills [switches_to_add]. *)
Fixpoint create_selects (config : Init.FullDeviceConfig)
    (device_info : option Init.DeviceInfo) (fields : list Select.SelectField)
    (switches_to_add : list Select.BluettiSelect)
    : M (list Select.BluettiSelect) :=
  match fields with
  | [] => mret switches_to_add
  | field :: rest =>
      _ ← library (get_category field.(Select.name));
      select ← BluettiSelect config device_info field;
      create_selects config device_info rest (switches_to_add ++ [select])
  end.

(** [async_setup_entry(hass, entry, async_add_entities)].  [config] is
    [FullDeviceConfig.from_dict(entry.data)], [title] is [entry.title]. *)
Definition async_setup_entry (entry_id title : string)
    (config : option Init.FullDeviceConfig) : M unit :=
  d ← get_hass_data;
  entries ← subscript d DOMAIN;
  entry ← subscript entries entry_id;
  coordinator ← subscript entry DATA_COORDINATOR;
  entries ← subscript d DOMAIN;
  entry ← subscript entries entry_id;
  lock ← subscript entry DATA_LOCK;
  match config with
  | None =>
      (* line 36: [config.address] *)
      raise AttributeError
  | Some cfg =>
      when (config_is_None config
            || negb (isinstance_PollingCoordinator coordinator)) (
        logger ERROR "No coordinator found";;
        return_ PyNone);;
      logger INFO "Creating selects for device with address %s";;
      let device_info := Init.device_info DOMAIN MANUFACTURER config title in
      switch_fields ← library (get_select_fields cfg.(Init.name));
      switches_to_add ← create_selects cfg device_info switch_fields [];
      emit (AddEntities switches_to_add)
  end.

End Setup.

(** The lists of entities handed to the host, in order. *)
Definition added (tr : list event) : list (list Select.BluettiSelect) :=
  omap (λ ev, match ev with AddEntities l => Some l | _ => None end) tr.

Definition error_logged (tr : list event) : bool :=
  existsb (λ ev, match ev with Log ERROR _ => true | _ => false end) tr.

(** The exception raised by the first call of [f] that fails on the
    elements of [l], if any. *)
Fixpoint first_failure {A B} (f : A → library_result B) (l : list A)
    : option exn :=
  match l with
  | [] => None
  | a :: rest =>
      match f a with
      | Fails x => Some x
      | Gives _ => first_failure f rest
      end
  end.

(** The selects of a device: one new entity per select field, in the order
    of the fields. *)
Definition selects_of (config : Init.FullDeviceConfig) (title : string)
    (fields : list Select.SelectField) : list Select.BluettiSelect :=
  map (λ field, Select.__init__ config.(Init.address) title field
                  config.(Init.use_encryption)) fields.

(** *** A concrete device, used to run the definitions *)

(** A library that knows one select field and a category for every field. *)
Definition example_get_select_fields (device_name : string)
    : library_result (list Select.SelectField) :=
  Gives [Select.example_field].
Definition example_get_category (field_name : string) : library_result unit :=
  Gives tt.

(** The registry after the integration setup of [Init.example_config]. *)
Definition example_world : world :=
  {| hass_data :=
       <["bluetti_bt" :=
           <["entry1" :=
               <["coordinator" := Init.Coordinator Init.example_config]>
                 (<["lock" := Init.Lock]> ∅)]> ∅]> ∅;
     trace := [] |}.

End SelectSetup.

(** * Properties *)

(** ** Frame conditions of the control operators *)

Section Respects.
Context {W : Type} (R : W → W → Prop).
Context `{!Reflexive R, !Transitive R}.

Lemma respects_ret {A} (a : A) : respects R (mret a : ctl W A).
Proof. intros w. reflexivity. Qed.

Lemma respects_return {A} v : respects R (return_ v : ctl W A).
Proof. intros w. reflexivity. Qed.

Lemma respects_raise {A} x : respects R (raise x : ctl W A).
Proof. intros w. reflexivity. Qed.

Lemma respects_bind {A B} (m : ctl W A) (f : A → ctl W B) :
  respects R m → (∀ a, respects R (f a)) → respects R (m ≫= f).
Proof.
  intros Hm Hf w. specialize (Hm w).
  unfold mbind, ctl_bind. destruct (m w) as [[a|v|x] w1]; simpl in *; auto.
  etrans; [exact Hm | apply Hf].
Qed.

Lemma respects_when b (m : ctl W unit) :
  respects R m → respects R (when b m).
Proof. intros Hm. destruct b; simpl; [exact Hm | apply respects_ret]. Qed.

Lemma respects_try_except_TimeoutError {A} (body handler : ctl W A) :
  respects R body → respects R handler →
  respects R (try_except_TimeoutError body handler).
Proof.
  intros Hb Hh w. specialize (Hb w). unfold try_except_TimeoutError.
  destruct (body w) as [[a|v|x] w1]; simpl in *; auto.
  destruct (is_TimeoutError x); simpl; auto.
  etrans; [exact Hb | apply Hh].
Qed.

Lemma respects_try_except_Exception {A} (body : ctl W A) handler :
  respects R body → (∀ err, respects R (handler err)) →
  respects R (try_except_Exception body handler).
Proof.
  intros Hb Hh w. specialize (Hb w). unfold try_except_Exception.
  destruct (body w) as [[a|v|x] w1]; simpl in *; auto.
  etrans; [exact Hb | apply Hh].
Qed.

Lemma respects_try_finally {A} (body : ctl W A) cleanup :
  respects R body → respects R cleanup →
  respects R (try_finally body cleanup).
Proof.
  intros Hb Hc w. specialize (Hb w). unfold try_finally.
  destruct (body w) as [r w1]. specialize (Hc w1).
  destruct (cleanup w1) as [[a|v|x] w2]; simpl in *; etrans; eauto.
Qed.

Lemma respects_call (body : ctl W unit) :
  respects R body → respects R (call body).
Proof.
  intros Hb w. specialize (Hb w). unfold call.
  destruct (body w) as [[a|v|x] w1]; simpl in *; auto.
Qed.

Lemma respects_run (body : ctl W unit) w :
  respects R body → R w (run body w).2.
Proof.
  intros Hb. specialize (Hb w). unfold run.
  destruct (body w) as [[a|v|x] w1]; simpl in *; auto.
Qed.
End Respects.

(** ** [get_unique_id] *)

Lemma lower_ascii_alnum c :
  is_alnum c = true → is_lower_alnum (lower_ascii c) = true.
Proof.
  destruct c as [[] [] [] [] [] [] [] []]; vm_compute; intros; congruence.
Qed.

Lemma lower_ascii_not_underscore c :
  is_alnum c = true → is_underscore (lower_ascii c) = false.
Proof.
  destruct c as [[] [] [] [] [] [] [] []]; vm_compute; intros; congruence.
Qed.

Lemma lower_ascii_lower_alnum c :
  is_lower_alnum c = true → lower_ascii c = c ∧ is_alnum c = true.
Proof.
  destruct c as [[] [] [] [] [] [] [] []]; vm_compute; intros H; split;
    congruence.
Qed.

Lemma is_underscore_spec c :
  is_underscore c = true → c = "_"%char.
Proof. unfold is_underscore. by intros ?%Ascii.eqb_eq. Qed.

Lemma get_unique_id_chars_from in_run name :
  Forall (λ c, is_id_char c = true)
    (String.list_ascii_of_string (lower (re_sub_non_alnum in_run name))).
Proof.
  revert in_run. induction name as [|c rest IH]; intros in_run; cbn.
  - constructor.
  - destruct (is_alnum c) eqn:Hc; [|destruct in_run]; cbn.
    + constructor; [|apply IH]. unfold is_id_char.
      by rewrite lower_ascii_alnum.
    + apply IH.
    + constructor; [done|apply IH].
Qed.

Lemma get_unique_id_underscores_from in_run name :
  no_adjacent_underscores in_run (lower (re_sub_non_alnum in_run name)) = true.
Proof.
  revert in_run. induction name as [|c rest IH]; intros in_run; cbn; [done|].
  destruct (is_alnum c) eqn:Hc; [|destruct in_run]; cbn.
  - rewrite lower_ascii_not_underscore by done. apply IH.
  - apply IH.
  - apply IH.
Qed.

(** A string that already has the shape of an identifier is left as it is. *)
Lemma identifier_unchanged in_run s :
  Forall (λ c, is_id_char c = true) (String.list_ascii_of_string s) →
  no_adjacent_underscores in_run s = true →
  lower (re_sub_non_alnum in_run s) = s.
Proof.
  revert in_run. induction s as [|c rest IH]; intros in_run Hch Hu; [done|].
  cbn [String.list_ascii_of_string no_adjacent_underscores] in Hch, Hu.
  inversion Hch as [|?? Hc Hrest]; subst.
  unfold is_id_char in Hc. cbn [re_sub_non_alnum].
  destruct (is_underscore c) eqn:Hus.
  - apply is_underscore_spec in Hus as ->.
    apply andb_true_iff in Hu as [Hr Hu]. apply negb_true_iff in Hr as ->.
    change (is_alnum "_") with false. cbn [lower].
    change (lower_ascii "_") with "_"%char. by rewrite IH.
  - rewrite orb_false_r in Hc.
    destruct (lower_ascii_lower_alnum c Hc) as [Hl Ha].
    rewrite Ha. cbn [lower]. by rewrite Hl, IH.
Qed.

Lemma append_cons c s t : String c s +:+ t = String c (s +:+ t).
Proof. reflexivity. Qed.

Lemma append_nil t : "" +:+ t = t.
Proof. reflexivity. Qed.

Lemma re_sub_non_alnum_separator in_run sep rest :
  is_separator sep = true →
  re_sub_non_alnum in_run (sep +:+ rest) =
    (if in_run then "" else "_") +:+ re_sub_non_alnum true rest.
Proof.
  destruct sep as [|c sep]; [done|]. cbn [is_separator].
  revert in_run c. induction sep as [|c' sep IH]; intros in_run c Hsep.
  - cbn in Hsep. rewrite andb_true_r in Hsep. apply negb_true_iff in Hsep.
    rewrite append_cons, append_nil. cbn [re_sub_non_alnum]. rewrite Hsep.
    by destruct in_run.
  - cbn [String.list_ascii_of_string forallb] in Hsep.
    apply andb_true_iff in Hsep as [Hc Hsep]. apply negb_true_iff in Hc.
    rewrite append_cons. cbn [re_sub_non_alnum]. rewrite Hc.
    rewrite (IH true c' Hsep). by destruct in_run.
Qed.

Lemma re_sub_non_alnum_separators in_run a sep1 sep2 b :
  is_separator sep1 = true → is_separator sep2 = true →
  re_sub_non_alnum in_run (a +:+ sep1 +:+ b) =
  re_sub_non_alnum in_run (a +:+ sep2 +:+ b).
Proof.
  intros H1 H2. revert in_run.
  induction a as [|c a IH]; intros in_run.
  - rewrite !append_nil. by rewrite !re_sub_non_alnum_separator.
  - rewrite !append_cons. cbn [re_sub_non_alnum]. by rewrite !IH.
Qed.

(** X1: the identifier consists of lower-case letters, digits and
    underscores only, and no two underscores follow one another. *)
Theorem get_unique_id_shape name :
  Forall (λ c, is_id_char c = true)
    (String.list_ascii_of_string (get_unique_id name None)) ∧
  no_adjacent_underscores false (get_unique_id name None) = true.
Proof.
  split; [apply get_unique_id_chars_from|apply get_unique_id_underscores_from].
Qed.

(** X2: normalising an identifier again gives the same identifier. *)
Theorem get_unique_id_idempotent name :
  get_unique_id (get_unique_id name None) None = get_unique_id name None.
Proof.
  unfold get_unique_id. apply identifier_unchanged.
  - apply get_unique_id_chars_from.
  - apply get_unique_id_underscores_from.
Qed.

(** X3: two names that differ only in what separates two of their parts get
    the same identifier. *)
Theorem get_unique_id_separator_collision a sep1 sep2 b sensor_type :
  is_separator sep1 = true → is_separator sep2 = true →
  get_unique_id (a +:+ sep1 +:+ b) sensor_type =
  get_unique_id (a +:+ sep2 +:+ b) sensor_type.
Proof.
  intros H1 H2. unfold get_unique_id.
  by rewrite (re_sub_non_alnum_separators false a sep1 sep2 b).
Qed.

Lemma get_unique_id_separator_collision_witness :
  get_unique_id "AC180 charging mode" None =
  get_unique_id "AC180 charging - mode" None.
Proof.
  apply (get_unique_id_separator_collision "AC180 charging" " " " - " "mode");
    reflexivity.
Defined.

Module SelectFacts.
Import Select.

(** ** The update handler, case by case *)

Lemma handler_skip w :
  w.(self).(_write_in_progress) = true →
  _handle_coordinator_update w =
    (Return PyNone,
     emitted (Log DEBUG "Write in progress for %s, skipping coordinator update") w).
Proof.
  intros H. unfold _handle_coordinator_update.
  cbv [mbind ctl_bind get_self]. rewrite H. reflexivity.
Qed.

#[local] Arguments dict_get : simpl never.

Lemma publications_app tr1 tr2 :
  publications (tr1 ++ tr2) = publications tr1 ++ publications tr2.
Proof. apply filter_app. Qed.

Lemma external_calls_app tr1 tr2 :
  external_calls (tr1 ++ tr2) = external_calls tr1 ++ external_calls tr2.
Proof. apply filter_app. Qed.

Lemma classify_valid s d :
  classify s d = None ↔ valid_snapshot s d = true.
Proof.
  destruct d as [|cls nm|z|str|b|m]; simpl; try (split; discriminate).
  destruct (dict_get m (_response_key s)); simpl;
    try (split; discriminate).
  destruct (bool_decide _); split; congruence.
Qed.

(** The state write: it fails for an available entity whose current option
    was never assigned and publishes the state otherwise. *)
Lemma async_write_ha_state_eq w :
  async_write_ha_state w =
    if state_write_raises w.(self) then (Raise AttributeError, w)
    else (Normal tt, emitted (WriteHaState (ha_state_of w.(self))) w).
Proof.
  unfold async_write_ha_state. cbv [mbind ctl_bind get_self].
  by destruct (state_write_raises _).
Qed.

Lemma _set_available_eq w :
  _set_available w =
    let w1 := assigned (set__attr_extra_state_attributes ∅)
                (assigned (set__unavailable_counter 0)
                   (assigned (set__attr_available true) w)) in
    match w.(self).(current_option) with
    | None => (Raise AttributeError, w1)
    | Some _ => (Normal tt, emitted (WriteHaState (ha_state_of w1.(self))) w1)
    end.
Proof.
  unfold _set_available. cbv [mbind ctl_bind modify_self].
  rewrite async_write_ha_state_eq. unfold state_write_raises.
  cbn [self set__attr_extra_state_attributes set__unavailable_counter
       set__attr_available current_option available_ _attr_available].
  by destruct (current_option _).
Qed.

Lemma _set_unavailable_eq cause w :
  _set_unavailable cause w =
    let n := (w.(self).(_unavailable_counter) + 1)%Z in
    let w1 := assigned (set__attr_extra_state_attributes
                          (stale_attributes n cause))
                (assigned (set__unavailable_counter n) w) in
    if state_write_raises w.(self) then (Raise AttributeError, w1)
    else (Normal tt, emitted (WriteHaState (ha_state_of w1.(self))) w1).
Proof.
  unfold _set_unavailable. cbv [mbind ctl_bind modify_self get_self].
  cbn [self set__unavailable_counter _unavailable_counter].
  rewrite async_write_ha_state_eq.
  change (state_write_raises (self _)) with (state_write_raises (self w)).
  by destruct (state_write_raises _).
Qed.

(** The handler on a snapshot without valid data: it logs, marks the data
    stale and returns, unless the state write fails. *)
Lemma handler_failure_eq w f :
  w.(self).(_write_in_progress) = false →
  classify w.(self) w.(coordinator).(data) = Some f →
  _handle_coordinator_update w =
    match _set_unavailable (cause_of f) (failure_logged f w) with
    | (Normal _, w') => (Return PyNone, w')
    | r => r
    end.
Proof.
  intros Hwip Hf. unfold _handle_coordinator_update.
  cbv [mbind ctl_bind get_self get_coordinator]. rewrite Hwip.
  cbn [when]. cbv [mret ctl_ret]. unfold classify in Hf.
  destruct (data (coordinator w)) as [|cls nm|z|str|b|m].
  1-5: injection Hf as <-; cbn [is_None when failure_logged cause_of];
       cbv [mbind ctl_bind logger emit emitted mret ctl_ret return_];
       cbn [fst snd];
       by destruct (_set_unavailable _ _) as [[[]|?|?] ?].
  cbn [is_None when]. cbv [mret ctl_ret logger emit]. cbn [self].
  destruct (dict_get m (_response_key (self w))) as [|cls nm|z|str|b|m'].
  1,3-6: injection Hf as <-; cbn [is_None isinstance negb when failure_logged
                                  cause_of];
       cbv [mbind ctl_bind logger emit emitted mret ctl_ret return_];
       cbn [fst snd];
       by destruct (_set_unavailable _ _) as [[[]|?|?] ?].
  cbn [is_None isinstance when] in Hf |- *.
  destruct (bool_decide _); [discriminate|]. injection Hf as <-.
  cbn [negb when failure_logged cause_of].
  cbv [mbind ctl_bind logger emit emitted mret ctl_ret return_]. cbn [fst snd].
  by destruct (_set_unavailable _ _) as [[[]|?|?] ?].
Qed.

(** The handler on a snapshot with valid data: it marks the entity
    available, then shows the option named by the snapshot, unless the
    state write in [_set_available] fails. *)
Lemma handler_valid_eq w :
  w.(self).(_write_in_progress) = false →
  valid_snapshot w.(self) w.(coordinator).(data) = true →
  ∃ d cls member_name,
    w.(coordinator).(data) = PyDict d ∧
    dict_get d w.(self).(_response_key) = PyEnum cls member_name ∧
    cls = w.(self).(_field).(e).(cls_name) ∧
    _handle_coordinator_update w =
      match _set_available (emitted (Log DEBUG "Updating state of %s") w) with
      | (Normal _, w1) =>
          let w2 := assigned (set_current_option member_name) w1 in
          (Normal tt, emitted (WriteHaState (ha_state_of w2.(self))) w2)
      | r => r
      end.
Proof.
  intros Hwip Hv. unfold valid_snapshot in Hv.
  destruct (data (coordinator w)) as [|cls nm|z|str|b|m] eqn:Hd;
    try discriminate.
  destruct (dict_get m (_response_key (self w))) as [|cls nm|z|str|b|m']
    eqn:Hget; try discriminate.
  cbn [isinstance] in Hv. apply bool_decide_eq_true in Hv.
  exists m, cls, nm. split; [done|]. split; [done|]. split; [done|].
  unfold _handle_coordinator_update.
  cbv [mbind ctl_bind get_self get_coordinator]. rewrite Hwip.
  cbn [when]. cbv [mret ctl_ret]. rewrite Hd.
  cbn [when is_None]. cbv [mret ctl_ret logger emit]. cbn [self].
  rewrite Hget. cbn [is_None isinstance when].
  rewrite bool_decide_eq_true_2 by done. cbn [negb when].
  cbv [mret ctl_ret emitted emit]. cbn [fst snd].
  by destruct (_set_available _) as [[[]|?|?] w1].
Qed.

Lemma failure_logged_frame f w :
  (failure_logged f w).(self) = w.(self) ∧
  (failure_logged f w).(coordinator) = w.(coordinator) ∧
  external_calls (failure_logged f w).(trace) = external_calls w.(trace) ∧
  publications (failure_logged f w).(trace) = publications w.(trace) ∧
  ∃ new, (failure_logged f w).(trace) = w.(trace) ++ new.
Proof.
  destruct f; cbn [failure_logged emitted emit snd self coordinator trace];
    rewrite <- ?app_assoc, ?external_calls_app, ?publications_app; cbn;
    rewrite ?app_nil_r; eauto 10.
Qed.

(** The handler leaves the coordinator, the configuration and the
    write-in-progress flag alone, calls no external collaborator and only
    appends to the trace. *)
Lemma handler_frame w :
  let w' := (_handle_coordinator_update w).2 in
  w'.(coordinator) = w.(coordinator) ∧
  configuration w'.(self) = configuration w.(self) ∧
  w'.(self).(_write_in_progress) = w.(self).(_write_in_progress) ∧
  external_calls w'.(trace) = external_calls w.(trace) ∧
  ∃ new, w'.(trace) = w.(trace) ++ new.
Proof.
  destruct (w.(self).(_write_in_progress)) eqn:Hwip.
  { rewrite handler_skip by done. cbn. rewrite external_calls_app, Hwip.
    cbn. rewrite app_nil_r. eauto 10. }
  destruct (classify w.(self) w.(coordinator).(data)) as [f|] eqn:Hc.
  - rewrite (handler_failure_eq w f), _set_unavailable_eq by done.
    destruct (failure_logged_frame f w) as (Hs&Hco&He&_&new&Ht).
    cbn zeta. destruct (state_write_raises _);
      cbn [fst snd assigned modify_self emitted emit self coordinator trace
           configuration set__attr_extra_state_attributes
           set__unavailable_counter _address _field _response_key
           _use_encryption _attr_options _attr_unique_id _write_in_progress];
      rewrite ?external_calls_app, Hs, Hco, He, Ht, Hwip; cbn;
      rewrite ?app_nil_r, <- ?app_assoc; eauto 10.
  - apply classify_valid in Hc.
    destruct (handler_valid_eq w Hwip Hc) as (m&cls&nm&_&_&_&->).
    rewrite _set_available_eq. cbn zeta.
    cbn [emitted emit snd self current_option].
    destruct (current_option (self w));
      cbn [fst snd assigned modify_self emitted emit self coordinator trace
           configuration set__attr_extra_state_attributes
           set__unavailable_counter set__attr_available set_current_option
           _address _field _response_key
           _use_encryption _attr_options _attr_unique_id _write_in_progress];
      rewrite ?external_calls_app, ?Hwip; cbn;
      rewrite ?app_nil_r, <- ?app_assoc; eauto 10.
Qed.

Lemma handler_failure w f :
  w.(self).(_write_in_progress) = false →
  classify w.(self) w.(coordinator).(data) = Some f →
  let w' := (_handle_coordinator_update w).2 in
  w'.(self).(_unavailable_counter) = (w.(self).(_unavailable_counter) + 1)%Z ∧
  w'.(self).(_attr_extra_state_attributes) =
    Some (stale_attributes (w.(self).(_unavailable_counter) + 1) (cause_of f)) ∧
  w'.(self).(current_option) = w.(self).(current_option) ∧
  w'.(self).(_attr_available) = w.(self).(_attr_available) ∧
  publications w'.(trace) =
    publications w.(trace) ++
    (if state_write_raises w.(self) then []
     else [WriteHaState (ha_state_of w'.(self))]) ∧
  (_handle_coordinator_update w).1 =
    if state_write_raises w.(self) then Raise AttributeError
    else Return PyNone.
Proof.
  intros Hwip Hf.
  rewrite (handler_failure_eq w f), _set_unavailable_eq by done.
  destruct (failure_logged_frame f w) as (Hs&_&_&Hp&_).
  cbn zeta. rewrite Hs. destruct (state_write_raises (self w));
    cbn [fst snd assigned modify_self emitted emit self trace
         set__attr_extra_state_attributes set__unavailable_counter
         _unavailable_counter _attr_extra_state_attributes current_option
         _attr_available];
    rewrite ?publications_app, Hs, Hp; cbn; rewrite ?app_nil_r; auto 10.
Qed.

Lemma handler_valid w :
  w.(self).(_write_in_progress) = false →
  valid_snapshot w.(self) w.(coordinator).(data) = true →
  let w' := (_handle_coordinator_update w).2 in
  ∃ d cls member_name,
    w.(coordinator).(data) = PyDict d ∧
    dict_get d w.(self).(_response_key) = PyEnum cls member_name ∧
    cls = w.(self).(_field).(e).(cls_name) ∧
    (_handle_coordinator_update w).1 =
      match w.(self).(current_option) with
      | Some _ => Normal tt
      | None => Raise AttributeError
      end ∧
    w'.(self).(_unavailable_counter) = 0%Z ∧
    w'.(self).(_attr_extra_state_attributes) = Some ∅ ∧
    w'.(self).(current_option) =
      match w.(self).(current_option) with
      | Some _ => Some member_name
      | None => None
      end ∧
    w'.(self).(_attr_available) = true ∧
    publications w'.(trace) =
      publications w.(trace) ++
      match w.(self).(current_option) with
      | Some _ =>
          [WriteHaState {| state := w.(self).(current_option);
                           available := true;
                           extra_state_attributes := Some ∅ |};
           WriteHaState {| state := Some member_name;
                           available := true;
                           extra_state_attributes := Some ∅ |}]
      | None => []
      end.
Proof.
  intros Hwip Hv.
  destruct (handler_valid_eq w Hwip Hv) as (m&cls&nm&Hd&Hget&Hcls&->).
  exists m, cls, nm. split; [done|]. split; [done|]. split; [done|].
  rewrite _set_available_eq. cbn zeta.
  cbn [emitted emit snd self current_option].
  destruct (current_option (self w)) as [old|] eqn:Hcur;
    cbn [fst snd assigned modify_self emitted emit self trace];
    rewrite <- ?app_assoc, ?publications_app; unfold ha_state_of, available_;
    cbn; rewrite ?Hcur, ?app_nil_r; repeat case_decide; try done; auto 10.
Qed.

(** ** Deliveries *)

Lemma deliver_eq d w :
  deliver d w = (Normal tt, (_handle_coordinator_update (set_data d w).2).2).
Proof. reflexivity. Qed.

Lemma deliver_all_normal ds w : deliver_all ds w = (Normal tt, delivered ds w).
Proof.
  unfold delivered. revert w. induction ds as [|d ds IH]; intros w; [done|].
  cbn [deliver_all]. unfold mbind, ctl_bind at 1. rewrite deliver_eq.
  rewrite IH. reflexivity.
Qed.

Lemma delivered_nil w : delivered [] w = w.
Proof. reflexivity. Qed.

Lemma delivered_cons d ds w :
  delivered (d :: ds) w = delivered ds (deliver d w).2.
Proof. unfold delivered. cbn [deliver_all]. by rewrite deliver_eq. Qed.

Lemma delivered_app ds1 ds2 w :
  delivered (ds1 ++ ds2) w = delivered ds2 (delivered ds1 w).
Proof.
  revert w. induction ds1 as [|d ds1 IH]; intros w; [done|].
  by rewrite <- app_comm_cons, !delivered_cons, IH.
Qed.

#[local] Instance unchanged_by_delivery_refl : Reflexive unchanged_by_delivery.
Proof. intros w. repeat split. exists []. by rewrite app_nil_r. Qed.

#[local] Instance unchanged_by_delivery_trans : Transitive unchanged_by_delivery.
Proof.
  intros w1 w2 w3 (?&?&?&?&n1&?) (?&?&?&?&n2&?).
  repeat split; try congruence.
  exists (n1 ++ n2). rewrite app_assoc. congruence.
Qed.

Lemma deliver_frame d : respects unchanged_by_delivery (deliver d).
Proof.
  intros w. rewrite deliver_eq. cbn [snd].
  destruct (handler_frame (set_data d w).2) as (Hc&?&?&?&?).
  repeat split; try assumption. by rewrite Hc.
Qed.

Lemma delivered_frame ds w : unchanged_by_delivery w (delivered ds w).
Proof.
  revert w. induction ds as [|d ds IH]; intros w; [reflexivity|].
  rewrite delivered_cons. etrans; [apply deliver_frame | apply IH].
Qed.

(** ** [write_to_device], path by path *)

Lemma write_to_device_try_eq env st w :
  write_to_device_try env st w =
    match env.(write_result) with
    | AwaitOk =>
        (Normal tt,
         delivered env.(during_sleep) (emitted (Sleep 3) (after_exchange env st w)))
    | AwaitRaises x =>
        if is_TimeoutError x then
          (Return PyNone,
           emitted (Log ERROR "Timed out for device %s") (after_exchange env st w))
        else (Raise x, after_exchange env st w)
    end.
Proof.
  unfold write_to_device_try, after_exchange, exchange_event, choose_connection.
  unfold try_except_TimeoutError, await.
  cbv [mbind ctl_bind get_self get_coordinator].
  destruct (reuse_condition (coordinator w)).
  all: cbv [logger emit mret ctl_ret]; cbn [self coordinator trace].
  all: rewrite deliver_all_normal.
  all: destruct (write_result env) as [|x]; cbv [raise];
    [ rewrite deliver_all_normal; reflexivity | ].
  all: destruct (is_TimeoutError x); reflexivity.
Qed.

Lemma write_to_device_eq env st w :
  run (write_to_device env st) w =
    match env.(write_result) with
    | AwaitOk =>
        (Returned PyNone,
         delivered env.(during_refresh)
           (emitted AsyncRefresh
              (assigned (set__write_in_progress false)
                 (delivered env.(during_sleep)
                    (emitted (Sleep 3) (after_exchange env st w))))))
    | AwaitRaises x =>
        if is_TimeoutError x then
          (Returned PyNone,
           assigned (set__write_in_progress false)
             (emitted (Log ERROR "Timed out for device %s")
                (after_exchange env st w)))
        else
          (Raised x,
           assigned (set__write_in_progress false) (after_exchange env st w))
    end.
Proof.
  unfold run, write_to_device, try_finally, async_refresh.
  unfold mbind, ctl_bind. rewrite write_to_device_try_eq.
  destruct (write_result env) as [|x]; [|destruct (is_TimeoutError x)];
    cbn; try reflexivity.
  rewrite deliver_all_normal. reflexivity.
Qed.
(** ** Worlds after an event, an assignment, a delivery *)

Lemma deliver_skip d w :
  w.(self).(_write_in_progress) = true →
  (deliver d w).2.(self) = w.(self) ∧
  publications (deliver d w).2.(trace) = publications w.(trace).
Proof.
  intros Hwip. rewrite deliver_eq. cbn [snd].
  rewrite handler_skip by done. split; [done|].
  cbn. rewrite publications_app. cbn. by rewrite app_nil_r.
Qed.

Lemma delivered_skip ds w :
  w.(self).(_write_in_progress) = true →
  (delivered ds w).(self) = w.(self) ∧
  publications (delivered ds w).(trace) = publications w.(trace).
Proof.
  revert w. induction ds as [|d ds IH]; intros w Hwip; [done|].
  rewrite delivered_cons.
  destruct (deliver_skip d w Hwip) as [Hs Hp].
  destruct (IH (deliver d w).2) as [Hs' Hp']; [by rewrite Hs|].
  split; congruence.
Qed.

Lemma valid_snapshot_configuration s s' d :
  configuration s = configuration s' →
  valid_snapshot s d = valid_snapshot s' d.
Proof.
  unfold configuration, valid_snapshot. intros [= _ Hf Hk _ _ _].
  by rewrite Hf, Hk.
Qed.

Lemma classify_configuration s s' d :
  configuration s = configuration s' → classify s d = classify s' d.
Proof.
  unfold configuration, classify. intros [= _ Hf Hk _ _ _].
  by rewrite Hf, Hk.
Qed.

Lemma classify_invalid s d :
  valid_snapshot s d = false → ∃ f, classify s d = Some f.
Proof.
  intros Hv. destruct (classify s d) as [f|] eqn:Hc; [eauto|].
  apply classify_valid in Hc. congruence.
Qed.

(** One delivery to an entity with no write in progress. *)
Lemma deliver_counter d w :
  w.(self).(_write_in_progress) = false →
  (deliver d w).2.(self).(_unavailable_counter) =
    if valid_snapshot w.(self) d then 0%Z
    else (w.(self).(_unavailable_counter) + 1)%Z.
Proof.
  intros Hwip. rewrite deliver_eq. cbn [snd].
  destruct (valid_snapshot (self w) d) eqn:Hv.
  - destruct (handler_valid (set_data d w).2) as (?&?&?&_&_&_&_&->&_); done.
  - destruct (classify_invalid _ _ Hv) as [f Hf].
    destruct (handler_failure (set_data d w).2 f) as (->&_); done.
Qed.

Lemma spec_unavailable_counter_configuration s s' n ds :
  configuration s = configuration s' →
  spec_unavailable_counter s n ds = spec_unavailable_counter s' n ds.
Proof.
  intros Hcfg. unfold spec_unavailable_counter.
  revert n. induction ds as [|d ds IH]; intros n; [done|].
  cbn [foldl]. by rewrite IH, (valid_snapshot_configuration s s').
Qed.

Lemma delivered_counter ds w :
  w.(self).(_write_in_progress) = false →
  (delivered ds w).(self).(_unavailable_counter) =
    spec_unavailable_counter w.(self) w.(self).(_unavailable_counter) ds.
Proof.
  revert w. induction ds as [|d ds IH]; intros w Hwip; [done|].
  rewrite delivered_cons.
  destruct (deliver_frame d w) as (_&Hcfg&Hw&_).
  rewrite IH by congruence. rewrite deliver_counter by done.
  by rewrite (spec_unavailable_counter_configuration _ w.(self)).
Qed.

(** ** Claims about [write_to_device] and [async_select_option] *)

Lemma exchange_event_external st w :
  external_calls [exchange_event st w] = [exchange_event st w].
Proof. unfold exchange_event. by destruct (reuse_condition _). Qed.

Lemma after_exchange_frame env st w :
  (after_exchange env st w).(self).(_write_in_progress) =
    w.(self).(_write_in_progress) ∧
  external_calls (after_exchange env st w).(trace) =
    external_calls w.(trace) ++ [exchange_event st w] ∧
  ∃ rest, (after_exchange env st w).(trace) =
    w.(trace) ++
    [Log DEBUG (if reuse_condition w.(coordinator)
                then "Reusing coordinator's connection"
                else "Coordinator connection not available, creating new connection");
     exchange_event st w] ++ rest.
Proof.
  unfold after_exchange.
  match goal with |- context [delivered ?ds ?w0] =>
    destruct (delivered_frame ds w0) as (_&_&Hw&Hc&rest&Ht) end.
  rewrite Hw, Hc, Ht. cbn [emitted emit snd self trace].
  rewrite !external_calls_app, exchange_event_external.
  cbn -[exchange_event]. rewrite app_nil_r.
  split; [done|]. split; [done|]. exists rest. by rewrite <- !app_assoc.
Qed.

(** The reuse condition of the code is the conjunction of the specification:
    the handle exists, it is connected and it is ready for commands. *)
Lemma reuse_condition_spec c :
  reuse_condition c = handle_exists c && connected c && readyForCommands c.
Proof.
  unfold reuse_condition, handle_exists, connected, readyForCommands.
  destruct (reader c) as [[[cl|] [enc|]]|]; cbn;
    rewrite ?andb_false_r; reflexivity.
Qed.

(** C2: every write performs its device exchange with the poller's client
    and encryption session and timeout 10 exactly when, at decision time,
    the handle exists, is connected and is ready for commands; in every
    other case it passes no shared connection and uses timeout 45. *)
Theorem connection_reuse_decision env st w :
  let c := w.(coordinator) in
  let s := w.(self) in
  let reuse := handle_exists c && connected c && readyForCommands c in
  ∃ timeout shared_client shared_encryption rest,
    external_calls (run (write_to_device env st) w).2.(trace) =
      external_calls w.(trace) ++
      WriterWrite s.(_address) timeout s.(_use_encryption)
        shared_client shared_encryption s.(_field).(name) st :: rest ∧
    (reuse = true ↔
       timeout = 10%Z ∧ is_Some shared_client ∧ is_Some shared_encryption) ∧
    (reuse = true →
       shared_client = c.(reader) ≫= client ∧
       shared_encryption = c.(reader) ≫= encryption) ∧
    (reuse = false ↔
       timeout = 45%Z ∧ shared_client = None ∧ shared_encryption = None).
Proof.
  intros c s reuse.
  assert (Hev : ∃ rest,
    external_calls (run (write_to_device env st) w).2.(trace) =
      external_calls w.(trace) ++ exchange_event st w :: rest).
  { rewrite write_to_device_eq.
    destruct (after_exchange_frame env st w) as (_&Hc&_).
    destruct (write_result env) as [|x]; [|destruct (is_TimeoutError x)];
      cbn [snd].
    - match goal with |- context [delivered ?ds ?w0] =>
        destruct (delivered_frame ds w0) as (_&_&_&->&_) end.
      cbn [emitted emit assigned modify_self snd trace].
      rewrite external_calls_app.
      match goal with |- context [delivered ?ds ?w0] =>
        destruct (delivered_frame ds w0) as (_&_&_&->&_) end.
      cbn [emitted emit snd trace]. rewrite external_calls_app, Hc.
      rewrite <- !app_assoc. eauto.
    - cbn [emitted emit assigned modify_self snd trace].
      rewrite external_calls_app, Hc. rewrite <- !app_assoc. eauto.
    - cbn [emitted emit assigned modify_self snd trace]. rewrite Hc.
      exists []. done. }
  destruct Hev as [rest Hev]. unfold exchange_event in Hev.
  fold c s in Hev. rewrite reuse_condition_spec in Hev. fold reuse in Hev.
  subst reuse.
  destruct (handle_exists c && connected c && readyForCommands c) eqn:Hr.
  - eexists _, _, _, rest. split; [exact Hev|].
    rewrite <- reuse_condition_spec in Hr. unfold reuse_condition in Hr.
    destruct (reader c) as [[[cl|] [enc|]]|]; cbn in *;
      rewrite ?andb_false_r in Hr; try discriminate.
    repeat split; eauto; intros; discriminate || (destruct_and?; discriminate).
  - eexists _, _, _, rest. split; [exact Hev|].
    repeat split; eauto; intros; try discriminate;
      destruct_and?; discriminate.
Qed.


(** The calls on external collaborators made by one [write_to_device]. *)
Lemma write_to_device_calls env st w :
  external_calls (run (write_to_device env st) w).2.(trace) =
    external_calls w.(trace) ++
    match env.(write_result) with
    | AwaitOk => [exchange_event st w; Sleep 3; AsyncRefresh]
    | AwaitRaises _ => [exchange_event st w]
    end.
Proof.
  rewrite write_to_device_eq.
  destruct (after_exchange_frame env st w) as (_&Hc&_).
  destruct (write_result env) as [|x]; [|destruct (is_TimeoutError x)];
    cbn [snd].
  - match goal with |- context [delivered ?ds ?w0] =>
      destruct (delivered_frame ds w0) as (_&_&_&->&_) end.
    cbn [emitted emit assigned modify_self snd trace].
    rewrite external_calls_app.
    match goal with |- context [delivered ?ds ?w0] =>
      destruct (delivered_frame ds w0) as (_&_&_&->&_) end.
    cbn [emitted emit snd trace]. rewrite external_calls_app, Hc.
    by rewrite <- !app_assoc.
  - cbn [emitted emit assigned modify_self snd trace].
    rewrite external_calls_app, Hc. cbn. by rewrite app_nil_r.
  - cbn [emitted emit assigned modify_self snd trace]. by rewrite Hc.
Qed.

Lemma write_to_device_clears_flag env st w :
  (run (write_to_device env st) w).2.(self).(_write_in_progress) = false.
Proof.
  rewrite write_to_device_eq.
  destruct (write_result env) as [|x]; [|destruct (is_TimeoutError x)];
    cbn [snd]; [|done..].
  match goal with |- context [delivered ?ds ?w0] =>
    destruct (delivered_frame ds w0) as (_&_&->&_) end.
  done.
Qed.

Lemma write_to_device_result env st w :
  (run (write_to_device env st) w).1 =
    match env.(write_result) with
    | AwaitOk => Returned PyNone
    | AwaitRaises x => if is_TimeoutError x then Returned PyNone else Raised x
    end.
Proof.
  rewrite write_to_device_eq.
  by destruct (write_result env) as [|x]; [|destruct (is_TimeoutError x)].
Qed.

(** The optimistic part of [async_select_option]. *)
Lemma async_select_option_optimistic_eq option w :
  async_select_option_optimistic option w =
    (Normal tt,
     emitted
       (WriteHaState (ha_state_of
          (set__write_in_progress true (set_current_option option w.(self)))))
       (assigned (set__write_in_progress true)
          (assigned (set_current_option option)
             (emitted (Log DEBUG "Set %s on %s to %s") w)))).
Proof. reflexivity. Qed.

Lemma write_to_device_returns_None env st w v w' :
  write_to_device env st w = (Return v, w') → v = PyNone.
Proof.
  intros E. pose proof (write_to_device_eq env st w) as Heq.
  unfold run in Heq. rewrite E in Heq.
  destruct (write_result env) as [|y]; [|destruct (is_TimeoutError y)];
    congruence.
Qed.

Lemma async_select_option_eq env option w :
  run (async_select_option env option) w =
    run (write_to_device env option) (async_select_option_optimistic option w).2.
Proof.
  unfold async_select_option, run. cbv [mbind ctl_bind call].
  rewrite async_select_option_optimistic_eq. cbn [snd].
  destruct (write_to_device env option _) as [[[]|v|x] w1] eqn:E;
    try reflexivity.
  apply write_to_device_returns_None in E. by subst.
Qed.

(** C3: however a write ends — device exchange completed, [TimeoutError] or
    any other exception — the write-in-progress flag of the entity is false
    when [write_to_device], and with it the user's [async_select_option],
    terminates. *)
Theorem write_in_progress_cleared_on_every_exit env st w :
  (∃ r w', run (write_to_device env st) w = (r, w') ∧
     w'.(self).(_write_in_progress) = false ∧
     r = match env.(write_result) with
         | AwaitOk => Returned PyNone
         | AwaitRaises x =>
             if is_TimeoutError x then Returned PyNone else Raised x
         end) ∧
  (run (async_select_option env st) w).2.(self).(_write_in_progress) = false.
Proof.
  split.
  - destruct (run (write_to_device env st) w) as [r w'] eqn:E.
    exists r, w'. split; [done|].
    pose proof (write_to_device_clears_flag env st w) as H1.
    pose proof (write_to_device_result env st w) as H2.
    rewrite E in H1, H2. done.
  - rewrite async_select_option_eq. apply write_to_device_clears_flag.
Qed.


(** C8: when the device exchange of a write completes, the calls on the
    external collaborators are the exchange, then a delay of exactly 3,
    then exactly one coordinator refresh; the write returns [None], and it
    does so whatever the refresh yields and delivers. *)
Theorem successful_write_settles_then_refreshes_once env st w :
  env.(write_result) = AwaitOk →
  (run (write_to_device env st) w).1 = Returned PyNone ∧
  external_calls (run (write_to_device env st) w).2.(trace) =
    external_calls w.(trace) ++ [exchange_event st w; Sleep 3; AsyncRefresh] ∧
  ∀ snapshots yields,
    (run (write_to_device (with_refresh env snapshots yields) st) w).1 =
      (run (write_to_device env st) w).1.
Proof.
  intros Hok. rewrite write_to_device_calls, !write_to_device_result, Hok.
  split; [done|]. split; [done|]. intros snapshots yields.
  rewrite write_to_device_result. cbn. by rewrite Hok.
Qed.

(** C10: a write whose exchange raises [TimeoutError] returns [None], and
    one whose exchange raises any other exception propagates it; in both
    cases the only call on an external collaborator is the exchange itself
    (no settle delay, no follow-up refresh) and the write-in-progress flag
    is cleared. *)
Theorem failed_write_skips_settle_and_refresh env st w x :
  env.(write_result) = AwaitRaises x →
  (run (write_to_device env st) w).1 =
    (if is_TimeoutError x then Returned PyNone else Raised x) ∧
  external_calls (run (write_to_device env st) w).2.(trace) =
    external_calls w.(trace) ++ [exchange_event st w] ∧
  (Sleep 3 ∉ [exchange_event st w]) ∧
  (AsyncRefresh ∉ [exchange_event st w]) ∧
  (run (write_to_device env st) w).2.(self).(_write_in_progress) = false.
Proof.
  intros Hx. rewrite write_to_device_calls, write_to_device_result, Hx.
  rewrite write_to_device_clears_flag.
  repeat split; unfold exchange_event; destruct (reuse_condition _);
    by intros ?%list_elem_of_singleton.
Qed.

(** C7: a select of an option first assigns the requested value as the
    current option, sets the write-in-progress flag and publishes that
    state; the device exchange is performed only afterwards, with the flag
    still set. *)
Theorem optimistic_state_published_before_exchange env option w :
  let w1 := (async_select_option_optimistic option w).2 in
  w1.(self).(current_option) = Some option ∧
  w1.(self).(_write_in_progress) = true ∧
  w1.(trace) =
    w.(trace) ++ [Log DEBUG "Set %s on %s to %s";
                  WriteHaState (ha_state_of w1.(self))] ∧
  (ha_state_of w1.(self)).(state) = Some option ∧
  external_calls w1.(trace) = external_calls w.(trace) ∧
  run (async_select_option env option) w =
    run (write_to_device env option) w1 ∧
  ∃ msg rest,
    (run (async_select_option env option) w).2.(trace) =
      w.(trace) ++
      [Log DEBUG "Set %s on %s to %s"; WriteHaState (ha_state_of w1.(self));
       Log DEBUG msg; exchange_event option w1] ++ rest.
Proof.
  intros w1. subst w1. rewrite async_select_option_eq.
  rewrite async_select_option_optimistic_eq. cbn [snd].
  set (w1 := emitted _ _).
  assert (Ht : w1.(trace) = w.(trace) ++
    [Log DEBUG "Set %s on %s to %s"; WriteHaState (ha_state_of w1.(self))]).
  { cbn. by rewrite <- app_assoc. }
  assert (Hc : external_calls w1.(trace) = external_calls w.(trace)).
  { rewrite Ht, external_calls_app. cbn. by rewrite app_nil_r. }
  repeat split; try done.
  destruct (after_exchange_frame env option w1) as (_&_&rest&Hae).
  assert (Hext : ∃ more, (run (write_to_device env option) w1).2.(trace) =
            (after_exchange env option w1).(trace) ++ more).
  { rewrite write_to_device_eq.
    destruct (write_result env) as [|x]; [|destruct (is_TimeoutError x)];
      cbn [snd].
    - match goal with |- context [delivered ?ds ?w0] =>
        destruct (delivered_frame ds w0) as (_&_&_&_&n1&->) end.
      cbn [emitted emit assigned modify_self snd trace].
      match goal with |- context [delivered ?ds ?w0] =>
        destruct (delivered_frame ds w0) as (_&_&_&_&n2&->) end.
      cbn [emitted emit snd trace]. rewrite <- !app_assoc. eauto.
    - cbn. eauto.
    - cbn. exists []. by rewrite app_nil_r. }
  destruct Hext as [more ->]. rewrite Hae, Ht.
  eexists _, (rest ++ more). by rewrite <- !app_assoc.
Qed.

(** C1: while the write-in-progress flag is set, a delivered snapshot leaves
    the whole entity as it is (current option, availability flag,
    unavailable counter, extra state attributes) and publishes nothing; the
    handler just returns.  This lasts through the exchange and the settle
    delay of a write, however the exchange ends; the flag is cleared when
    the write resolves. *)
Theorem write_in_progress_suppresses_updates w :
  w.(self).(_write_in_progress) = true →
  (∀ snapshot,
     (_handle_coordinator_update (set_data snapshot w).2).1 = Return PyNone ∧
     (deliver snapshot w).2.(self) = w.(self) ∧
     publications (deliver snapshot w).2.(trace) = publications w.(trace)) ∧
  (∀ snapshots,
     (delivered snapshots w).(self) = w.(self) ∧
     publications (delivered snapshots w).(trace) = publications w.(trace)) ∧
  (∀ env st,
     (write_to_device_try env st w).2.(self) = w.(self) ∧
     publications (write_to_device_try env st w).2.(trace) =
       publications w.(trace)) ∧
  (∀ env st,
     (run (write_to_device env st) w).2.(self).(_write_in_progress) = false).
Proof.
  intros Hwip. split; [|split; [|split]].
  - intros d. split; [by rewrite handler_skip|]. by apply deliver_skip.
  - intros ds. by apply delivered_skip.
  - intros env st. rewrite write_to_device_try_eq.
    assert (Hae : (after_exchange env st w).(self) = w.(self) ∧
      publications (after_exchange env st w).(trace) = publications w.(trace)).
    { unfold after_exchange.
      match goal with |- context [delivered ?ds ?w0] =>
        destruct (delivered_skip ds w0) as [-> ->]; [done|] end.
      split; [done|]. cbn [emitted emit snd trace].
      rewrite !publications_app. unfold exchange_event.
      destruct (reuse_condition _); cbn; by rewrite !app_nil_r. }
    destruct Hae as [Hs Hp].
    destruct (write_result env) as [|x]; [|destruct (is_TimeoutError x)];
      cbn [snd].
    + match goal with |- context [delivered ?ds ?w0] =>
        destruct (delivered_skip ds w0) as [-> ->]; [cbn; by rewrite Hs|] end.
      cbn [emitted emit snd trace self]. rewrite publications_app, Hp.
      cbn. by rewrite app_nil_r.
    + cbn [emitted emit snd trace self]. rewrite publications_app, Hp.
      cbn. by rewrite app_nil_r.
    + done.
  - intros env st. apply write_to_device_clears_flag.
Qed.


(** ** The unavailable counter and the availability flag *)

Lemma spec_unavailable_counter_failures s n ds :
  Forall (λ d, valid_snapshot s d = false) ds →
  spec_unavailable_counter s n ds = (n + Z.of_nat (length ds))%Z.
Proof.
  unfold spec_unavailable_counter. intros H. revert n.
  induction H as [|d ds Hd _ IH]; intros n; cbn [foldl length].
  - lia.
  - rewrite Hd, IH. lia.
Qed.

(** C4: for updates delivered while no write is in progress, the
    unavailable counter is 0 after an update with valid, correctly typed
    data and one more than before after an update whose snapshot is absent,
    not a mapping, lacks the field or has a value of the wrong type; these
    cases are exhaustive.  Over a sequence of updates the counter follows
    the specification's fold, so within a run of failures it grows by one
    per update, and the first success after it resets it to 0. *)
Theorem unavailable_counter_reset_and_increment w :
  w.(self).(_write_in_progress) = false →
  (∀ d, valid_snapshot w.(self) d = true →
     (deliver d w).2.(self).(_unavailable_counter) = 0%Z) ∧
  (∀ d f, classify w.(self) d = Some f →
     (deliver d w).2.(self).(_unavailable_counter) =
       (w.(self).(_unavailable_counter) + 1)%Z) ∧
  (∀ d, valid_snapshot w.(self) d = true ∨
        classify w.(self) d = Some Absent ∨
        classify w.(self) d = Some NotAMapping ∨
        classify w.(self) d = Some FieldMissing ∨
        classify w.(self) d = Some WrongType) ∧
  (∀ ds, (delivered ds w).(self).(_unavailable_counter) =
     spec_unavailable_counter w.(self) w.(self).(_unavailable_counter) ds) ∧
  (∀ ds, Forall (λ d, valid_snapshot w.(self) d = false) ds →
     (delivered ds w).(self).(_unavailable_counter) =
       (w.(self).(_unavailable_counter) + Z.of_nat (length ds))%Z) ∧
  (∀ ds1 ds2, Forall (λ d, valid_snapshot w.(self) d = false) (ds1 ++ ds2) →
     ((delivered ds1 w).(self).(_unavailable_counter) ≤
      (delivered (ds1 ++ ds2) w).(self).(_unavailable_counter))%Z) ∧
  (∀ ds d, valid_snapshot w.(self) d = true →
     (delivered (ds ++ [d]) w).(self).(_unavailable_counter) = 0%Z).
Proof.
  intros Hwip. repeat split.
  - intros d Hv. rewrite deliver_counter by done. by rewrite Hv.
  - intros d f Hf. rewrite deliver_counter by done.
    destruct (valid_snapshot (self w) d) eqn:Hv; [|done].
    apply classify_valid in Hv. congruence.
  - intros d. destruct (classify (self w) d) as [[]|] eqn:Hc; auto.
    left. by apply classify_valid.
  - intros ds. by apply delivered_counter.
  - intros ds Hds. rewrite delivered_counter by done.
    by apply spec_unavailable_counter_failures.
  - intros ds1 ds2 Hds. rewrite !delivered_counter by done.
    rewrite !spec_unavailable_counter_failures; [|done|].
    + rewrite length_app. lia.
    + by apply Forall_app in Hds as [? _].
  - intros ds d Hv. rewrite !delivered_counter by done.
    unfold spec_unavailable_counter. rewrite foldl_app. cbn. by rewrite Hv.
Qed.


(** ** Invariants of sequences of operations *)

Section Invariant.
(** A property [P] of the entity that the handler maintains for the
    snapshots satisfying [Q], and that the assignments of a write
    maintain. *)
Variable P : BluettiSelect → Prop.
Variable Q : pyvalue → Prop.
Hypothesis P_handler : ∀ w,
  Q w.(coordinator).(data) → P w.(self) →
  P (_handle_coordinator_update w).2.(self).
Hypothesis P_current_option : ∀ s v, P s → P (set_current_option v s).
Hypothesis P_write_in_progress : ∀ s b, P s → P (set__write_in_progress b s).

Lemma deliver_invariant d w : Q d → P w.(self) → P (deliver d w).2.(self).
Proof. intros HQ HP. rewrite deliver_eq. by apply P_handler. Qed.

Lemma delivered_invariant ds w :
  Forall Q ds → P w.(self) → P (delivered ds w).(self).
Proof.
  intros HQ. revert w. induction HQ as [|d ds Hd _ IH]; intros w HP; [done|].
  rewrite delivered_cons. by apply IH, deliver_invariant.
Qed.

Lemma write_to_device_invariant env st w :
  Forall Q (env.(during_write) ++ env.(during_sleep) ++ env.(during_refresh)) →
  P w.(self) → P (run (write_to_device env st) w).2.(self).
Proof.
  intros [Hw Hs]%Forall_app HP. apply Forall_app in Hs as [Hs Hr].
  rewrite write_to_device_eq.
  assert (P (after_exchange env st w).(self)) as Hae
    by (by apply delivered_invariant).
  destruct (write_result env) as [|x]; [|destruct (is_TimeoutError x)];
    cbn [snd].
  - apply delivered_invariant; [done|]. apply P_write_in_progress.
    by apply delivered_invariant.
  - by apply P_write_in_progress.
  - by apply P_write_in_progress.
Qed.

Lemma step_invariant w o :
  Forall Q (snapshots_of o) → P w.(self) → P (step w o).(self).
Proof.
  destruct o as [d|env option|rd]; cbn [step snapshots_of]; intros HQ HP.
  - apply deliver_invariant; [by inversion HQ | done].
  - rewrite async_select_option_eq. apply write_to_device_invariant; [done|].
    rewrite async_select_option_optimistic_eq.
    by apply P_write_in_progress, P_current_option.
  - done.
Qed.

Lemma run_ops_invariant ops w :
  Forall Q (snapshots_of_ops ops) → P w.(self) → P (run_ops ops w).(self).
Proof.
  unfold run_ops, snapshots_of_ops. revert w.
  induction ops as [|o ops IH]; intros w HQ HP; [done|].
  cbn [foldl map concat] in *. apply Forall_app in HQ as [Ho Hops].
  by apply IH, step_invariant.
Qed.
End Invariant.

(** ** Availability *)

(** The handler never takes availability away, whatever the snapshot. *)
Lemma handler_keeps_available w :
  available_ w.(self) = true →
  available_ (_handle_coordinator_update w).2.(self) = true.
Proof.
  intros Hav. destruct (w.(self).(_write_in_progress)) eqn:Hwip.
  - by rewrite handler_skip.
  - destruct (valid_snapshot w.(self) w.(coordinator).(data)) eqn:Hv.
    + by destruct (handler_valid w) as (?&?&?&_&_&_&_&_&_&_&Ha&_).
    + destruct (classify_invalid _ _ Hv) as [f Hf].
      destruct (handler_failure w f) as (_&_&_&Ha&_); [done..|].
      unfold available_ in *. congruence.
Qed.

Lemma run_ops_keeps_available ops w :
  available_ w.(self) = true → available_ (run_ops ops w).(self) = true.
Proof.
  intros Hav.
  apply (run_ops_invariant (λ s, available_ s = true) (λ _, True)); try done.
  - intros w0 _. apply handler_keeps_available.
  - by apply Forall_true.
Qed.

Lemma delivered_keeps_available ds w :
  available_ w.(self) = true → available_ (delivered ds w).(self) = true.
Proof.
  revert w. induction ds as [|d ds IH]; intros w Hav; [done|].
  rewrite delivered_cons. apply IH. rewrite deliver_eq.
  by apply handler_keeps_available.
Qed.

(** A valid snapshot delivered while no write is in progress makes the
    entity available. *)
Lemma deliver_valid_available d w :
  w.(self).(_write_in_progress) = false →
  valid_snapshot w.(self) d = true →
  available_ (deliver d w).2.(self) = true.
Proof.
  intros Hwip Hv. rewrite deliver_eq. cbn [snd].
  by destruct (handler_valid (set_data d w).2) as (?&?&?&_&_&_&_&_&_&_&Ha&_).
Qed.

Lemma delivered_valid_available ds w :
  w.(self).(_write_in_progress) = false →
  Exists (λ d, valid_snapshot w.(self) d = true) ds →
  available_ (delivered ds w).(self) = true.
Proof.
  intros Hwip Hex. revert w Hwip Hex.
  induction ds as [|d ds IH]; intros w Hwip Hex; [by inversion Hex|].
  rewrite delivered_cons.
  destruct (deliver_frame d w) as (_&Hcfg&Hw&_).
  destruct (valid_snapshot w.(self) d) eqn:Hv.
  - apply delivered_keeps_available. by apply deliver_valid_available.
  - apply IH; [congruence|]. inversion Hex as [?? Hd|?? Htl]; subst.
    + congruence.
    + eapply Exists_impl; [exact Htl|]. intros d' Hd'. cbn beta in *.
      by rewrite (valid_snapshot_configuration _ w.(self)).
Qed.

(** C5: on a newly constructed entity the first update with valid data
    marks the entity available, and availability then stays true through
    every sequence of operations; but the state write of [_set_available]
    fails, because the current option was never assigned: the handler ends
    with [AttributeError] before it assigns the option, and nothing is
    published.  A failed update that follows assigns the counter and the
    staleness attributes, and its state write fails in the same way: the
    staleness metadata is not published and there is no last-known value
    to show. *)
Theorem never_selected_entity_publishes_nothing address device_name field
    use_encryption c tr d d' f :
  let s0 := __init__ address device_name field use_encryption in
  let w0 := {| self := s0; coordinator := c; trace := tr |} in
  valid_snapshot s0 d = true →
  classify s0 d' = Some f →
  let w1 := (deliver d w0).2 in
  let w2 := (deliver d' w1).2 in
  (_handle_coordinator_update (set_data d w0).2).1 = Raise AttributeError ∧
  available_ w1.(self) = true ∧
  w1.(self).(current_option) = None ∧
  publications w1.(trace) = publications tr ∧
  (_handle_coordinator_update (set_data d' w1).2).1 = Raise AttributeError ∧
  available_ w2.(self) = true ∧
  w2.(self).(current_option) = None ∧
  w2.(self).(_unavailable_counter) = 1%Z ∧
  w2.(self).(_attr_extra_state_attributes) =
    Some (stale_attributes 1 (cause_of f)) ∧
  publications w2.(trace) = publications tr ∧
  (∀ ops, available_ (run_ops ops w1).(self) = true).
Proof.
  intros s0 w0 Hv Hf w1 w2.
  assert (E1 : w1 = (_handle_coordinator_update (set_data d w0).2).2)
    by (subst w1; by rewrite deliver_eq).
  assert (E2 : w2 = (_handle_coordinator_update (set_data d' w1).2).2)
    by (subst w2; by rewrite deliver_eq).
  destruct (handler_valid (set_data d w0).2 eq_refl Hv)
    as (m&cls&nm&_&_&_&Hr1&_&_&Hc1&Hav1&Hp1).
  destruct (handler_frame (set_data d w0).2) as (_&Hcfg1&Hw1&_).
  rewrite <- E1 in Hc1, Hav1, Hp1, Hcfg1, Hw1.
  change (current_option (self (set_data d w0).2)) with (@None string)
    in Hr1, Hc1, Hp1.
  change (trace (set_data d w0).2) with tr in Hp1.
  change (self (set_data d w0).2) with s0 in Hcfg1, Hw1.
  rewrite app_nil_r in Hp1.
  assert (Hf1 : classify (self (set_data d' w1).2) (data (coordinator
                  (set_data d' w1).2)) = Some f).
  { rewrite <- Hf. by apply classify_configuration. }
  assert (Hraise : state_write_raises (self (set_data d' w1).2) = true).
  { unfold state_write_raises, available_. cbn [set_data snd self].
    by rewrite Hc1, Hav1. }
  destruct (handler_failure (set_data d' w1).2 f Hw1 Hf1)
    as (Hn2&Ha2&Hc2&Hav2&Hp2&Hr2).
  rewrite <- E2 in Hn2, Ha2, Hc2, Hav2, Hp2.
  rewrite Hraise in Hp2, Hr2. rewrite app_nil_r in Hp2.
  change (self (set_data d' w1).2) with (self w1) in Hn2, Ha2, Hc2, Hav2.
  change (trace (set_data d' w1).2) with (trace w1) in Hp2.
  assert (Hn1 : w1.(self).(_unavailable_counter) = 0%Z).
  { rewrite E1.
    by destruct (handler_valid (set_data d w0).2 eq_refl Hv)
      as (?&?&?&_&_&_&_&?&_). }
  unfold available_. rewrite Hn1 in Hn2, Ha2.
  change (0 + 1)%Z with 1%Z in Hn2, Ha2. cbn beta iota in Hr1, Hc1.
  repeat split; try congruence.
  all: intros; by apply run_ops_keeps_available.
Qed.

Lemma never_selected_entity_publishes_nothing_witness :
  let w1 := (deliver example_snapshot example_world).2 in
  let w2 := (deliver PyNone w1).2 in
  (_handle_coordinator_update (set_data PyNone w1).2).1 =
    Raise AttributeError ∧
  available_ w2.(self) = true ∧
  w2.(self).(current_option) = None ∧
  w2.(self).(_attr_extra_state_attributes) =
    Some (stale_attributes 1 "Data is None") ∧
  publications w2.(trace) = [].
Proof.
  destruct (never_selected_entity_publishes_nothing "AA:BB:CC:DD:EE:FF"
              "AC180" example_field true {| reader := None; data := PyNone |}
              [] example_snapshot PyNone Absent)
    as (_&_&_&_&H1&H2&H3&_&H4&H5&_); [vm_compute; reflexivity..|].
  repeat split; assumption.
Defined.

(** ** A newly constructed entity *)

(** While no delivered snapshot is valid for the entity constructed as [s0],
    the counter stays at or above the counter of [s0]. *)
Lemma run_ops_counter_lower_bound s0 ops w :
  configuration w.(self) = configuration s0 →
  Forall (λ d, valid_snapshot s0 d = false) (snapshots_of_ops ops) →
  (s0.(_unavailable_counter) ≤ w.(self).(_unavailable_counter))%Z →
  (s0.(_unavailable_counter) ≤ (run_ops ops w).(self).(_unavailable_counter))%Z.
Proof.
  intros Hcfg Hds Hle.
  refine (proj1 (run_ops_invariant
    (λ s, (s0.(_unavailable_counter) ≤ s.(_unavailable_counter))%Z ∧
          configuration s = configuration s0)
    (λ d, valid_snapshot s0 d = false) _ _ _ ops w Hds _)); try done.
  clear. intros w Hq [Hle Hcfg].
  destruct (handler_frame w) as (_&Hcfg'&_). split; [|congruence].
  destruct (w.(self).(_write_in_progress)) eqn:Hwip.
  - by rewrite handler_skip.
  - rewrite <- (valid_snapshot_configuration _ _ _ Hcfg) in Hq.
    destruct (classify_invalid _ _ Hq) as [f Hf].
    destruct (handler_failure w f) as (->&_); [done..|]. lia.
Qed.

(** C9: a newly constructed entity has unavailable counter 5, is not
    available and has no write in progress.  The first failed update it
    receives therefore publishes the staleness attributes with counter 6.
    As long as no delivered snapshot holds valid data for the field the
    counter stays at 5 or more, so a counter of 0 implies that a snapshot
    with valid data was delivered. *)
Theorem new_entity_counter_starts_at_five address device_name field
    use_encryption c tr :
  let s0 := __init__ address device_name field use_encryption in
  let w0 := {| self := s0; coordinator := c; trace := tr |} in
  s0.(_unavailable_counter) = 5%Z ∧
  available_ s0 = false ∧
  s0.(_write_in_progress) = false ∧
  (∀ d f, classify s0 d = Some f →
     let w' := (deliver d w0).2 in
     w'.(self).(_unavailable_counter) = 6%Z ∧
     w'.(self).(_attr_extra_state_attributes) =
       Some (stale_attributes 6 (cause_of f)) ∧
     available_ w'.(self) = false ∧
     publications w'.(trace) =
       publications tr ++
       [WriteHaState {| state := None; available := false;
                        extra_state_attributes :=
                          Some (stale_attributes 6 (cause_of f)) |}]) ∧
  (∀ ops, Forall (λ d, valid_snapshot s0 d = false) (snapshots_of_ops ops) →
     (5 ≤ (run_ops ops w0).(self).(_unavailable_counter))%Z) ∧
  (∀ ops, (run_ops ops w0).(self).(_unavailable_counter) = 0%Z →
     Exists (λ d, valid_snapshot s0 d = true) (snapshots_of_ops ops)).
Proof.
  intros s0 w0. split; [done|]. split; [done|]. split; [done|].
  assert (Hlow : ∀ ops,
    Forall (λ d, valid_snapshot s0 d = false) (snapshots_of_ops ops) →
    (5 ≤ (run_ops ops w0).(self).(_unavailable_counter))%Z).
  { intros ops Hds. by apply (run_ops_counter_lower_bound s0). }
  split; [|split; [exact Hlow|]].
  - intros d f Hf w'. subst w'. rewrite deliver_eq. cbn [snd].
    destruct (handler_failure (set_data d w0).2 f)
      as (Hn&Ha&Hc&Hav&Hp&_); [done..|].
    cbn [set_data snd self trace w0] in *.
    change (state_write_raises s0) with false in Hp. cbn iota in Hp.
    rewrite Hn, Ha, Hp. unfold available_. rewrite Hav.
    repeat split. do 2 f_equal. unfold ha_state_of, available_.
    by rewrite Ha, Hc, Hav.
  - intros ops H0.
    destruct (decide (Exists (λ d, valid_snapshot s0 d = true)
                        (snapshots_of_ops ops))) as [|Hn]; [done|].
    apply not_Exists_Forall in Hn; [|intros d; apply _].
    assert (Hall : Forall (λ d, valid_snapshot s0 d = false)
                     (snapshots_of_ops ops)).
    { eapply Forall_impl; [exact Hn|]. intros d Hd. cbn beta in Hd.
      by apply not_true_is_false. }
    specialize (Hlow ops Hall). lia.
Qed.

(** ** The claims at the example entity *)

Lemma write_in_progress_suppresses_updates_witness :
  example_world_writing.(self).(_write_in_progress) = true ∧
  (deliver example_snapshot example_world_writing).2.(self) =
    example_world_writing.(self).
Proof.
  split; [reflexivity|].
  destruct (write_in_progress_suppresses_updates example_world_writing
              eq_refl) as (H&_).
  apply H.
Defined.

Lemma unavailable_counter_reset_and_increment_witness :
  example_world.(self).(_write_in_progress) = false ∧
  (deliver example_snapshot example_world).2.(self).(_unavailable_counter) = 0%Z.
Proof.
  split; [reflexivity|].
  destruct (unavailable_counter_reset_and_increment example_world eq_refl)
    as (H&_).
  apply H. vm_compute. reflexivity.
Defined.

Lemma successful_write_settles_then_refreshes_once_witness :
  example_env.(write_result) = AwaitOk ∧
  external_calls (run (write_to_device example_env "TURBO") example_world).2.(trace) =
    external_calls example_world.(trace) ++
    [exchange_event "TURBO" example_world; Sleep 3; AsyncRefresh].
Proof.
  split; [reflexivity|].
  destruct (successful_write_settles_then_refreshes_once example_env "TURBO"
              example_world eq_refl) as (_&H&_).
  exact H.
Defined.

Lemma failed_write_skips_settle_and_refresh_witness :
  (example_env_raising TimeoutError).(write_result) = AwaitRaises TimeoutError ∧
  (run (write_to_device (example_env_raising TimeoutError) "TURBO")
     example_world).1 = Returned PyNone.
Proof.
  split; [reflexivity|].
  destruct (failed_write_skips_settle_and_refresh
              (example_env_raising TimeoutError) "TURBO" example_world
              TimeoutError eq_refl) as (H&_).
  exact H.
Defined.


(** ** Further properties of the entity *)

(** An entity is determined by its configuration and its five mutable
    attributes. *)
Lemma entity_eq s s' :
  configuration s = configuration s' →
  s.(_unavailable_counter) = s'.(_unavailable_counter) →
  s.(_attr_available) = s'.(_attr_available) →
  s.(_attr_extra_state_attributes) = s'.(_attr_extra_state_attributes) →
  s.(current_option) = s'.(current_option) →
  s.(_write_in_progress) = s'.(_write_in_progress) →
  s = s'.
Proof.
  destruct s, s'. unfold configuration. cbn. intros [= -> -> -> -> -> ->].
  by intros -> -> -> -> ->.
Qed.

Lemma option_of_configuration s s' d :
  configuration s = configuration s' → option_of s d = option_of s' d.
Proof.
  unfold configuration, option_of. intros [= _ _ Hk _ _ _]. by rewrite Hk.
Qed.

(** One delivery of a valid snapshot, with no write in progress.  The
    option is shown only if the entity had one before: otherwise the state
    write of [_set_available] fails before the option is assigned. *)
Lemma deliver_valid d w :
  w.(self).(_write_in_progress) = false →
  valid_snapshot w.(self) d = true →
  let w' := (deliver d w).2 in
  configuration w'.(self) = configuration w.(self) ∧
  w'.(self).(_write_in_progress) = false ∧
  w'.(self).(_unavailable_counter) = 0%Z ∧
  w'.(self).(_attr_extra_state_attributes) = Some ∅ ∧
  w'.(self).(current_option) =
    match w.(self).(current_option) with
    | Some _ => option_of w.(self) d
    | None => None
    end ∧
  is_Some (option_of w.(self) d) ∧
  w'.(self).(_attr_available) = true ∧
  publications w'.(trace) =
    publications w.(trace) ++
    match w.(self).(current_option) with
    | Some _ =>
        [WriteHaState {| state := w.(self).(current_option);
                         available := true;
                         extra_state_attributes := Some ∅ |};
         WriteHaState {| state := option_of w.(self) d;
                         available := true;
                         extra_state_attributes := Some ∅ |}]
    | None => []
    end ∧
  (_handle_coordinator_update (set_data d w).2).1 =
    match w.(self).(current_option) with
    | Some _ => Normal tt
    | None => Raise AttributeError
    end.
Proof.
  intros Hwip Hv w'. subst w'. rewrite deliver_eq. cbn [snd].
  destruct (handler_frame (set_data d w).2) as (_&Hcfg&Hw&_).
  destruct (handler_valid (set_data d w).2)
    as (m&cls&nm&Hd&Hget&_&Hr&Hn&Ha&Hc&Hav&Hp); [done..|].
  cbn [set_data snd self coordinator data trace] in *. subst d.
  unfold option_of. rewrite Hget.
  split; [done|]. split; [congruence|]. split; [done|]. split; [done|].
  split; [done|]. split; [by eexists|]. split; [done|]. by split.
Qed.

(** One delivery of a snapshot without valid data, with no write in
    progress. *)
Lemma deliver_invalid d w :
  w.(self).(_write_in_progress) = false →
  valid_snapshot w.(self) d = false →
  let w' := (deliver d w).2 in
  ∃ f, classify w.(self) d = Some f ∧
  w'.(self).(_unavailable_counter) = (w.(self).(_unavailable_counter) + 1)%Z ∧
  w'.(self).(_attr_extra_state_attributes) =
    Some (stale_attributes (w.(self).(_unavailable_counter) + 1) (cause_of f)) ∧
  w'.(self).(current_option) = w.(self).(current_option) ∧
  w'.(self).(_attr_available) = w.(self).(_attr_available).
Proof.
  intros Hwip Hv w'. subst w'. rewrite deliver_eq. cbn [snd].
  destruct (classify_invalid _ _ Hv) as [f Hf]. exists f.
  destruct (handler_failure (set_data d w).2 f) as (?&?&?&?&_); [done..|].
  auto.
Qed.

(** X4: an update with valid data on an entity that has a current option
    publishes two states: first the option shown before the update, already
    marked available and without staleness attributes, then the option
    named by the snapshot.  On an entity whose current option was never
    assigned the first of the two state writes fails: the handler ends with
    [AttributeError], publishes nothing and leaves the option unassigned,
    with the entity marked available. *)
Theorem valid_update_publishes_old_option_first d w :
  w.(self).(_write_in_progress) = false →
  valid_snapshot w.(self) d = true →
  let r := _handle_coordinator_update (set_data d w).2 in
  is_Some (option_of w.(self) d) ∧
  available_ r.2.(self) = true ∧
  match w.(self).(current_option) with
  | Some old =>
      r.1 = Normal tt ∧
      r.2.(self).(current_option) = option_of w.(self) d ∧
      publications r.2.(trace) =
        publications w.(trace) ++
        [WriteHaState {| state := Some old;
                         available := true;
                         extra_state_attributes := Some ∅ |};
         WriteHaState {| state := option_of w.(self) d;
                         available := true;
                         extra_state_attributes := Some ∅ |}]
  | None =>
      r.1 = Raise AttributeError ∧
      r.2.(self).(current_option) = None ∧
      publications r.2.(trace) = publications w.(trace)
  end.
Proof.
  intros Hwip Hv r. subst r.
  destruct (deliver_valid d w Hwip Hv) as (_&_&_&_&Hc&Hsome&Hav&Hp&Hr).
  rewrite deliver_eq in Hc, Hav, Hp. cbn [snd] in Hc, Hav, Hp.
  split; [done|]. split; [done|].
  destruct (current_option (self w)) as [old|]; [done|].
  by rewrite app_nil_r in Hp.
Qed.

Lemma valid_update_publishes_old_option_first_witness :
  publications
    (_handle_coordinator_update
       (set_data example_snapshot example_world_selected).2).2.(trace) =
    publications example_world_selected.(trace) ++
    [WriteHaState {| state := Some "TURBO"; available := true;
                     extra_state_attributes := Some ∅ |};
     WriteHaState {| state := Some "SILENT"; available := true;
                     extra_state_attributes := Some ∅ |}].
Proof.
  pose proof (valid_update_publishes_old_option_first example_snapshot
                example_world_selected eq_refl eq_refl) as (_&_&H).
  destruct H as (_&_&H). exact H.
Defined.

(** X5: delivering the same valid snapshot a second time leaves the entity
    as it is after the first delivery. *)
Theorem valid_update_idempotent d w :
  w.(self).(_write_in_progress) = false →
  valid_snapshot w.(self) d = true →
  (deliver d (deliver d w).2).2.(self) = (deliver d w).2.(self).
Proof.
  intros Hwip Hv.
  destruct (deliver_valid d w Hwip Hv) as (Hcfg&Hw&Hn&Ha&Hc&Hsome&Hav&_).
  assert (Hv' : valid_snapshot (deliver d w).2.(self) d = true)
    by (by rewrite (valid_snapshot_configuration _ w.(self))).
  destruct (deliver_valid d _ Hw Hv') as (Hcfg'&Hw'&Hn'&Ha'&Hc'&_&Hav'&_).
  apply entity_eq; try congruence.
  rewrite Hc', Hc. destruct (current_option (self w)); [|done].
  destruct Hsome as [nm Hnm]. rewrite Hnm.
  by rewrite (option_of_configuration _ w.(self)).
Qed.

Lemma valid_update_idempotent_witness :
  (deliver example_snapshot
     (deliver example_snapshot example_world_selected).2).2.(self) =
  (deliver example_snapshot example_world_selected).2.(self).
Proof.
  apply (valid_update_idempotent example_snapshot example_world_selected);
    vm_compute; reflexivity.
Defined.

(** X6: no operation reassigns the configuration of the entity: address,
    field, response key, encryption flag, options and unique id are those
    chosen at construction. *)
Theorem configuration_never_changes ops w :
  configuration (run_ops ops w).(self) = configuration w.(self).
Proof.
  apply (run_ops_invariant
           (λ s, configuration s = configuration w.(self)) (λ _, True));
    try done.
  - intros w0 _ <-. by destruct (handler_frame w0) as (_&?&_).
  - by apply Forall_true.
Qed.

Lemma spec_current_option_configuration s s' cur ds :
  configuration s = configuration s' →
  spec_current_option s cur ds = spec_current_option s' cur ds.
Proof.
  intros Hcfg. unfold spec_current_option.
  revert cur. induction ds as [|d ds IH]; intros cur; [done|].
  cbn [foldl].
  by rewrite IH, (valid_snapshot_configuration s s'),
    (option_of_configuration s s').
Qed.

Lemma deliver_current_option d w :
  w.(self).(_write_in_progress) = false →
  is_Some w.(self).(current_option) →
  (deliver d w).2.(self).(current_option) =
    if valid_snapshot w.(self) d then option_of w.(self) d
    else w.(self).(current_option).
Proof.
  intros Hwip [old Hold]. destruct (valid_snapshot w.(self) d) eqn:Hv.
  - destruct (deliver_valid d w Hwip Hv) as (_&_&_&_&Hc&_). by rewrite Hc, Hold.
  - by destruct (deliver_invalid d w Hwip Hv) as (?&_&_&_&?&_).
Qed.

(** The option shown after a list of updates, for an entity that has one:
    the one named by the last update with valid data, or else the one shown
    before. *)
Lemma delivered_current_option ds w :
  w.(self).(_write_in_progress) = false →
  is_Some w.(self).(current_option) →
  (delivered ds w).(self).(current_option) =
    spec_current_option w.(self) w.(self).(current_option) ds.
Proof.
  revert w. induction ds as [|d ds IH]; intros w Hwip Hsome; [done|].
  rewrite delivered_cons.
  destruct (deliver_frame d w) as (_&Hcfg&Hw&_).
  pose proof (deliver_current_option d w Hwip Hsome) as Hd.
  rewrite IH; [|congruence|].
  - rewrite Hd. by rewrite (spec_current_option_configuration _ w.(self)).
  - rewrite Hd. destruct (valid_snapshot (self w) d) eqn:Hv; [|done].
    by destruct (deliver_valid d w Hwip Hv) as (_&_&_&_&_&?&_).
Qed.

(** While the flag is set, the exchange of a write leaves the entity and
    the publications as they are. *)
Lemma after_exchange_skip env st w :
  w.(self).(_write_in_progress) = true →
  (after_exchange env st w).(self) = w.(self) ∧
  publications (after_exchange env st w).(trace) = publications w.(trace).
Proof.
  intros Hwip. unfold after_exchange.
  match goal with |- context [delivered ?ds ?w0] =>
    destruct (delivered_skip ds w0) as [-> ->]; [done|] end.
  split; [done|]. cbn [emitted emit snd trace].
  rewrite !publications_app. unfold exchange_event.
  destruct (reuse_condition _); cbn; by rewrite !app_nil_r.
Qed.

(** The entity in which the follow-up refresh of a completed write starts:
    the snapshots delivered during the exchange and the settle delay have
    left no mark. *)
Lemma before_refresh_self env st w :
  w.(self).(_write_in_progress) = true →
  (assigned (set__write_in_progress false)
     (delivered env.(during_sleep)
        (emitted (Sleep 3) (after_exchange env st w)))).(self) =
  set__write_in_progress false w.(self).
Proof.
  intros Hwip. destruct (after_exchange_skip env st w Hwip) as [Hs _].
  cbn [assigned modify_self snd self].
  match goal with |- context [delivered ?ds ?w0] =>
    destruct (delivered_skip ds w0) as [-> _] end.
  - cbn [emitted emit snd self]. by rewrite Hs.
  - cbn [emitted emit snd self]. by rewrite Hs.
Qed.

(** X7: a select whose exchange raises leaves the requested option on
    display: the entity differs from the one before the select only in the
    current option, and the optimistic state is the only publication. *)
Theorem failed_select_keeps_optimistic_option env option w x :
  env.(write_result) = AwaitRaises x →
  let w' := (run (async_select_option env option) w).2 in
  w'.(self) = set__write_in_progress false (set_current_option option w.(self)) ∧
  publications w'.(trace) =
    publications w.(trace) ++
    [WriteHaState (ha_state_of (set_current_option option w.(self)))].
Proof.
  intros Hx w'. subst w'.
  rewrite async_select_option_eq, async_select_option_optimistic_eq.
  cbn [snd]. set (w1 := emitted _ _).
  assert (Hwip : w1.(self).(_write_in_progress) = true) by done.
  destruct (after_exchange_skip env option w1 Hwip) as [Hs Hp].
  assert (Hp1 : publications w1.(trace) =
    publications w.(trace) ++
    [WriteHaState (ha_state_of (set_current_option option w.(self)))]).
  { subst w1. cbn [emitted emit assigned modify_self snd self trace].
    rewrite !publications_app. cbn. by rewrite app_nil_r. }
  rewrite write_to_device_eq, Hx.
  destruct (is_TimeoutError x); cbn [snd assigned modify_self emitted emit
                                     self trace].
  - rewrite Hs, publications_app, Hp, Hp1. cbn. by rewrite app_nil_r.
  - by rewrite Hs, Hp, Hp1.
Qed.

Lemma failed_select_keeps_optimistic_option_witness :
  (run (async_select_option (example_env_raising TimeoutError) "TURBO")
     example_world).2.(self).(current_option) = Some "TURBO".
Proof.
  destruct (failed_select_keeps_optimistic_option
              (example_env_raising TimeoutError) "TURBO" example_world
              TimeoutError eq_refl) as [-> _].
  reflexivity.
Defined.

(** X8: after a select whose exchange completes, the entity is as the
    snapshots of the follow-up refresh alone leave it: the counter and the
    option shown are the folds over those snapshots, starting from the
    counter before the select and from the requested option.  Snapshots
    delivered during the exchange or the settle delay count for nothing. *)
Theorem completed_select_follows_refresh_only env option w :
  env.(write_result) = AwaitOk →
  let w' := (run (async_select_option env option) w).2 in
  w'.(self).(_unavailable_counter) =
    spec_unavailable_counter w.(self) w.(self).(_unavailable_counter)
      env.(during_refresh) ∧
  w'.(self).(current_option) =
    spec_current_option w.(self) (Some option) env.(during_refresh).
Proof.
  intros Hok w'. subst w'.
  rewrite async_select_option_eq, async_select_option_optimistic_eq.
  cbn [snd]. set (w1 := emitted _ _).
  assert (Hwip : w1.(self).(_write_in_progress) = true) by done.
  rewrite write_to_device_eq, Hok. cbn [snd].
  pose proof (before_refresh_self env option w1 Hwip) as Hs.
  set (w2 := emitted AsyncRefresh _).
  assert (Hs2 : w2.(self) = set__write_in_progress false w1.(self)) by exact Hs.
  rewrite delivered_counter by (by rewrite Hs2).
  rewrite delivered_current_option; [|by rewrite Hs2|rewrite Hs2; by eexists].
  rewrite Hs2. split.
  - by apply spec_unavailable_counter_configuration.
  - by apply spec_current_option_configuration.
Qed.

Lemma completed_select_follows_refresh_only_witness :
  (run (async_select_option example_env "TURBO")
     example_world).2.(self).(current_option) = Some "TURBO".
Proof.
  destruct (completed_select_follows_refresh_only example_env "TURBO"
              example_world eq_refl) as [_ ->].
  reflexivity.
Defined.

(** ** Accounting of external calls *)

Lemma count_app kind tr1 tr2 :
  count kind (tr1 ++ tr2) = (count kind tr1 + count kind tr2)%nat.
Proof. unfold count. by rewrite filter_app, length_app. Qed.

Lemma count_external_calls kind tr :
  (∀ ev, kind ev = true → is_external_call ev = true) →
  count kind (external_calls tr) = count kind tr.
Proof.
  intros Hk. unfold count, external_calls.
  induction tr as [|ev tr IH]; [done|].
  rewrite !filter_cons. destruct (kind ev) eqn:Hev.
  - rewrite (decide_True (P := is_external_call ev = true)) by auto.
    rewrite filter_cons, !decide_True by done. cbn. by rewrite IH.
  - rewrite (decide_False (P := false = true)) by done.
    destruct (decide (is_external_call ev = true)); [|done].
    rewrite filter_cons, Hev, decide_False by done. done.
Qed.

Lemma selects_cons o ops :
  selects (o :: ops) = ((if is_select o then 1 else 0) + selects ops)%nat.
Proof.
  unfold selects. rewrite filter_cons. by destruct (is_select o).
Qed.

Lemma completed_selects_cons o ops :
  completed_selects (o :: ops) =
    ((if is_completed_select o then 1 else 0) + completed_selects ops)%nat.
Proof.
  unfold completed_selects. rewrite filter_cons.
  by destruct (is_completed_select o).
Qed.

(** The calls on external collaborators made by one operation. *)
Lemma step_calls w o :
  external_calls (step w o).(trace) =
    external_calls w.(trace) ++
    match o with
    | SelectOption env option =>
        let w1 := (async_select_option_optimistic option w).2 in
        match env.(write_result) with
        | AwaitOk => [exchange_event option w1; Sleep 3; AsyncRefresh]
        | AwaitRaises _ => [exchange_event option w1]
        end
    | _ => []
    end.
Proof.
  destruct o as [d|env option|rd]; cbn [step].
  - destruct (deliver_frame d w) as (_&_&_&->&_). by rewrite app_nil_r.
  - rewrite async_select_option_eq, write_to_device_calls.
    f_equal. rewrite async_select_option_optimistic_eq.
    cbn [snd emitted emit assigned modify_self trace].
    rewrite !external_calls_app. cbn. by rewrite !app_nil_r.
  - cbn. by rewrite app_nil_r.
Qed.

Lemma count_exchange_event kind st w :
  count kind [exchange_event st w] =
    if kind (exchange_event st w) then 1%nat else 0%nat.
Proof.
  unfold count. rewrite filter_cons. by destruct (kind _).
Qed.

Lemma step_counts w o :
  count is_exchange (step w o).(trace) =
    (count is_exchange w.(trace) + if is_select o then 1 else 0)%nat ∧
  count is_sleep (step w o).(trace) =
    (count is_sleep w.(trace) + if is_completed_select o then 1 else 0)%nat ∧
  count is_refresh (step w o).(trace) =
    (count is_refresh w.(trace) + if is_completed_select o then 1 else 0)%nat.
Proof.
  rewrite <- !(count_external_calls _ (trace (step w o))),
    <- !(count_external_calls _ (trace w));
    try (by intros []).
  rewrite step_calls, !count_app.
  destruct o as [d|env option|rd]; cbn [is_select is_completed_select];
    [done| |done].
  destruct (write_result env).
  - change [?a; Sleep 3; AsyncRefresh] with ([a] ++ [Sleep 3; AsyncRefresh]).
    rewrite !count_app, !count_exchange_event. unfold exchange_event.
    by destruct (reuse_condition _).
  - rewrite !count_exchange_event. unfold exchange_event.
    by destruct (reuse_condition _).
Qed.

(** X9: over every sequence of operations the device is written to once per
    select and never otherwise, and there is one settle delay and one
    follow-up refresh per select whose exchange completed. *)
Theorem one_exchange_per_select ops w :
  count is_exchange (run_ops ops w).(trace) =
    (count is_exchange w.(trace) + selects ops)%nat ∧
  count is_sleep (run_ops ops w).(trace) =
    (count is_sleep w.(trace) + completed_selects ops)%nat ∧
  count is_refresh (run_ops ops w).(trace) =
    (count is_refresh w.(trace) + completed_selects ops)%nat.
Proof.
  unfold run_ops. revert w. induction ops as [|o ops IH]; intros w.
  - cbn. by rewrite !Nat.add_0_r.
  - cbn [foldl]. destruct (IH (step w o)) as (->&->&->).
    destruct (step_counts w o) as (->&->&->).
    rewrite selects_cons, completed_selects_cons. lia.
Qed.

(** ** Invariants of the entity *)

(** The handler run in [w] is the delivery of the snapshot that [w] holds. *)
Lemma handler_as_deliver w :
  (_handle_coordinator_update w).2 = (deliver w.(coordinator).(data) w).2.
Proof. rewrite deliver_eq. by destruct w as [? [] ?]. Qed.

(** X10: through every sequence of operations the published staleness
    attributes agree with the counter of the entity. *)
Theorem attributes_follow_counter_invariant ops w :
  attributes_follow_counter w.(self) →
  attributes_follow_counter (run_ops ops w).(self).
Proof.
  intros H.
  apply (run_ops_invariant attributes_follow_counter (λ _, True)); try done.
  - clear. intros w _ H.
    destruct (w.(self).(_write_in_progress)) eqn:Hwip.
    { by rewrite handler_skip. }
    rewrite handler_as_deliver.
    destruct (valid_snapshot w.(self) w.(coordinator).(data)) eqn:Hv.
    + destruct (deliver_valid _ w Hwip Hv) as (_&_&Hn&Ha&_).
      right. left. done.
    + destruct (deliver_invalid _ w Hwip Hv) as (f&_&Hn&Ha&_).
      right. right. exists (cause_of f). by rewrite Ha, Hn.
  - by apply Forall_true.
Qed.

Lemma attributes_follow_counter_invariant_witness :
  attributes_follow_counter
    (run_ops [Update PyNone; SelectOption example_env "TURBO";
              Update example_snapshot] example_world).(self).
Proof.
  apply (attributes_follow_counter_invariant _ example_world).
  left. reflexivity.
Defined.

(** X11: an entity that has a current option keeps one through every
    sequence of operations; updates alone never assign the current option
    of an entity that has none, however many snapshots with valid data
    arrive. *)
Theorem current_option_kept_but_not_set_by_updates w :
  (∀ ops, is_Some w.(self).(current_option) →
     is_Some (run_ops ops w).(self).(current_option)) ∧
  (∀ snapshots, w.(self).(current_option) = None →
     (delivered snapshots w).(self).(current_option) = None).
Proof.
  split.
  - intros ops H.
    apply (run_ops_invariant (λ s, is_Some s.(current_option)) (λ _, True));
      try done.
    + clear. intros w _ [old Hold].
      destruct (w.(self).(_write_in_progress)) eqn:Hwip.
      { rewrite handler_skip by done. by eexists. }
      rewrite handler_as_deliver.
      destruct (valid_snapshot w.(self) w.(coordinator).(data)) eqn:Hv.
      * destruct (deliver_valid _ w Hwip Hv) as (_&_&_&_&Hc&Hsome&_).
        by rewrite Hc, Hold.
      * destruct (deliver_invalid _ w Hwip Hv) as (f&_&_&_&Hc&_).
        rewrite Hc, Hold. by eexists.
    + by apply Forall_true.
  - intros ds. revert w. induction ds as [|d ds IH]; intros w Hnone; [done|].
    rewrite delivered_cons. apply IH.
    destruct (w.(self).(_write_in_progress)) eqn:Hwip.
    { destruct (deliver_skip d w Hwip) as [-> _]. done. }
    destruct (valid_snapshot w.(self) d) eqn:Hv.
    + destruct (deliver_valid d w Hwip Hv) as (_&_&_&_&Hc&_).
      by rewrite Hc, Hnone.
    + destruct (deliver_invalid d w Hwip Hv) as (f&_&_&_&Hc&_). congruence.
Qed.

End SelectFacts.

(** ** The bootstrap retry loop *)

Module InitFacts.
Import Init.

Lemma init_external_calls_app tr1 tr2 :
  external_calls (tr1 ++ tr2) = external_calls tr1 ++ external_calls tr2.
Proof. apply filter_app. Qed.

Lemma attempts_made_app tr1 tr2 :
  attempts_made (tr1 ++ tr2) = (attempts_made tr1 + attempts_made tr2)%nat.
Proof. unfold attempts_made. by rewrite filter_app, length_app. Qed.

(** One iteration of the retry loop never raises and never returns from the
    function: it hands over to the next iteration or breaks. *)
Lemma initial_fetch_attempt_eq attempt outcome w :
  initial_fetch_attempt attempt outcome w =
    match outcome with
    | AwaitOk =>
        (Normal Break,
         {| hass_data := w.(hass_data);
            trace := w.(trace) ++
              [Log INFO "Initial data fetch attempt %d/%d for %s";
               FirstRefresh;
               Log INFO "Initial data fetch successful for %s"] |})
    | AwaitRaises _ =>
        (Normal Continue,
         {| hass_data := w.(hass_data);
            trace := w.(trace) ++
              if (attempt <? max_initial_attempts)%nat then
                [Log INFO "Initial data fetch attempt %d/%d for %s";
                 FirstRefresh;
                 Log WARNING
                   "Initial data fetch failed for %s, retrying in %ds (attempt %d/%d): %s";
                 Sleep initial_retry_delay]
              else
                [Log INFO "Initial data fetch attempt %d/%d for %s";
                 FirstRefresh;
                 Log WARNING
                   "Initial data fetch failed after %d attempts for %s, will retry via normal polling schedule: %s"] |})
    end.
Proof.
  unfold initial_fetch_attempt, try_except_Exception, await, logger, emit.
  destruct outcome as [|x]; cbv [mbind ctl_bind mret ctl_ret raise];
    cbn [hass_data trace].
  - by rewrite <- !app_assoc.
  - destruct (attempt <? max_initial_attempts)%nat; cbn [hass_data trace];
      by rewrite <- !app_assoc.
Qed.

(** The loop stops at attempt [n]: [H] says that the earlier attempts
    failed, [E] how attempt [n] ended. *)
Ltac stops_at n H E :=
  exists n; eexists; cbn [hass_data trace]; rewrite <- ?app_assoc;
  split; [lia|];
  split; [exact H|];
  split; [rewrite E; cbn; auto|];
  split; [reflexivity|];
  split; reflexivity.

(** The loop over the five attempts: it stops at an attempt [n], the first
    one whose refresh succeeds or else the fifth. *)
Lemma initial_fetch_loop_stops first_refresh w :
  ∃ n new,
    (1 ≤ n ≤ 5)%nat ∧
    (∀ k, (1 ≤ k < n)%nat → succeeds (first_refresh k) = false) ∧
    (succeeds (first_refresh n) = true ∨
     n = 5%nat ∧ succeeds (first_refresh 5%nat) = false) ∧
    initial_fetch_loop first_refresh (seq 1 max_initial_attempts) w =
      (Normal tt,
       {| hass_data := w.(hass_data); trace := w.(trace) ++ new |}) ∧
    external_calls new =
      concat (replicate (n - 1) [FirstRefresh; Sleep 5]) ++ [FirstRefresh] ∧
    attempts_made new = n.
Proof.
  assert (Hk : ∀ n,
    (∀ k, (1 ≤ k < S n)%nat → succeeds (first_refresh k) = false) →
    succeeds (first_refresh (S n)) = false →
    ∀ k, (1 ≤ k < S (S n))%nat → succeeds (first_refresh k) = false).
  { intros n Hn HS k Hk. destruct (decide (k = S n)) as [->|]; [done|].
    apply Hn. lia. }
  assert (H0 : ∀ k, (1 ≤ k < 1)%nat → succeeds (first_refresh k) = false)
    by (intros; lia).
  cbn [seq max_initial_attempts initial_fetch_loop].
  unfold mbind, ctl_bind.
  rewrite initial_fetch_attempt_eq.
  destruct (first_refresh 1%nat) as [|x1] eqn:E1;
    [stops_at 1%nat H0 E1|].
  pose proof (Hk _ H0 ltac:(by rewrite E1)) as H1.
  rewrite initial_fetch_attempt_eq.
  destruct (first_refresh 2%nat) as [|x2] eqn:E2;
    [stops_at 2%nat H1 E2|].
  pose proof (Hk _ H1 ltac:(by rewrite E2)) as H2.
  rewrite initial_fetch_attempt_eq.
  destruct (first_refresh 3%nat) as [|x3] eqn:E3;
    [stops_at 3%nat H2 E3|].
  pose proof (Hk _ H2 ltac:(by rewrite E3)) as H3.
  rewrite initial_fetch_attempt_eq.
  destruct (first_refresh 4%nat) as [|x4] eqn:E4;
    [stops_at 4%nat H3 E4|].
  pose proof (Hk _ H3 ltac:(by rewrite E4)) as H4.
  rewrite initial_fetch_attempt_eq.
  destruct (first_refresh 5%nat) as [|x5] eqn:E5; stops_at 5%nat H4 E5.
Qed.

(** C6: with a configuration and the device present, setup makes at most
    five refresh attempts: it stops at the first attempt that succeeds, or
    after the fifth.  Every failed attempt before the last one is followed
    by a delay of exactly 5, a failure of the fifth attempt is followed by
    no delay and is not raised; in all cases the platforms are set up next
    and setup returns [True]. *)
Theorem bootstrap_retry_bounded DOMAIN DATA_COORDINATOR DATA_LOCK entry_id
    config first_refresh w :
  let r := run (async_setup_entry DOMAIN DATA_COORDINATOR DATA_LOCK entry_id
                  (Some config) true first_refresh) w in
  r.1 = Returned (PyBool true) ∧
  ∃ n,
    (1 ≤ n ≤ 5)%nat ∧
    (∀ k, (1 ≤ k < n)%nat → succeeds (first_refresh k) = false) ∧
    (succeeds (first_refresh n) = true ∨
     n = 5%nat ∧ succeeds (first_refresh 5%nat) = false) ∧
    external_calls r.2.(trace) =
      external_calls w.(trace) ++
      concat (replicate (n - 1) [FirstRefresh; Sleep 5]) ++
      [FirstRefresh; ForwardEntrySetups PLATFORMS] ∧
    attempts_made r.2.(trace) = (attempts_made w.(trace) + n)%nat.
Proof.
  intros r. subst r. unfold run, async_setup_entry.
  cbv [mbind ctl_bind when negb mret ctl_ret logger emit modify_data return_].
  cbn [hass_data trace].
  match goal with |- context [initial_fetch_loop _ _ ?w1] =>
    destruct (initial_fetch_loop_stops first_refresh w1)
      as (n&new&Hn&Hfail&Hlast&Heq&Hc&Ha) end.
  rewrite Heq. cbn [fst snd hass_data trace]. split; [done|].
  exists n. split; [done|]. split; [done|]. split; [done|].
  rewrite !init_external_calls_app, !attempts_made_app, Hc, Ha. cbn.
  repeat case_decide; try done. cbn.
  rewrite ?app_nil_r, <- ?app_assoc. split; [done|]. lia.
Qed.


(** ** Early exits and the registry *)

(** X12: without a configuration setup returns [False] and does nothing;
    with a configuration but without the device it raises
    [ConfigEntryNotReady] after one log record, before it touches the
    registry and before any refresh attempt or platform setup. *)
Theorem setup_early_exits DOMAIN DATA_COORDINATOR DATA_LOCK entry_id
    address_present config first_refresh w :
  run (async_setup_entry DOMAIN DATA_COORDINATOR DATA_LOCK entry_id
         None address_present first_refresh) w = (Returned (PyBool false), w) ∧
  let r := run (async_setup_entry DOMAIN DATA_COORDINATOR DATA_LOCK entry_id
                  (Some config) false first_refresh) w in
  r.1 = Raised ConfigEntryNotReady ∧
  r.2.(hass_data) = w.(hass_data) ∧
  r.2.(trace) = w.(trace) ++ [Log DEBUG "Init Bluetti BT Integration"] ∧
  external_calls r.2.(trace) = external_calls w.(trace).
Proof.
  split; [by destruct w|].
  unfold run, async_setup_entry.
  cbv [mbind ctl_bind when negb logger emit raise mret ctl_ret].
  cbn [fst snd hass_data trace].
  rewrite init_external_calls_app. cbn. by rewrite app_nil_r.
Qed.

(** The registry that setup leaves, as a function of the one it finds. *)
Lemma setup_registry DOMAIN DATA_COORDINATOR DATA_LOCK entry_id config
    first_refresh w :
  (run (async_setup_entry DOMAIN DATA_COORDINATOR DATA_LOCK entry_id
          (Some config) true first_refresh) w).2.(hass_data) =
    let d1 := setdefault DOMAIN ∅ w.(hass_data) in
    let d2 := <[DOMAIN := setdefault entry_id ∅ (default ∅ (d1 !! DOMAIN))]> d1 in
    let e2 := default ∅ (d2 !! DOMAIN) in
    let d3 := <[DOMAIN := <[entry_id :=
                  setdefault DATA_COORDINATOR (Coordinator config)
                    (default ∅ (e2 !! entry_id))]> e2]> d2 in
    let e3 := default ∅ (d3 !! DOMAIN) in
    <[DOMAIN := <[entry_id :=
        setdefault DATA_LOCK Lock (default ∅ (e3 !! entry_id))]> e3]> d3.
Proof.
  unfold run, async_setup_entry.
  cbv [mbind ctl_bind when negb mret ctl_ret logger emit modify_data return_].
  cbn [hass_data trace].
  match goal with |- context [initial_fetch_loop _ _ ?w1] =>
    destruct (initial_fetch_loop_stops first_refresh w1)
      as (n&new&_&_&_&Heq&_) end.
  rewrite Heq. reflexivity.
Qed.

Lemma setdefault_lookup {V} key (value : V) d :
  setdefault key value d !! key = Some (default value (d !! key)).
Proof.
  unfold setdefault. destruct (d !! key) eqn:E; [done|].
  by simplify_map_eq.
Qed.

Lemma setdefault_lookup_ne {V} key key' (value : V) d :
  key ≠ key' → setdefault key value d !! key' = d !! key'.
Proof.
  intros Hne. unfold setdefault. destruct (d !! key) eqn:E; [done|].
  by simplify_map_eq.
Qed.

(** The coordinator and the lock in the registry that [setup_registry]
    describes. *)
Lemma registered_after_setup DOMAIN DATA_COORDINATOR DATA_LOCK entry_id
    coordinator (d : gmap string (gmap string (gmap string registered))) :
  DATA_COORDINATOR ≠ DATA_LOCK →
  let d1 := setdefault DOMAIN ∅ d in
  let d2 := <[DOMAIN := setdefault entry_id ∅ (default ∅ (d1 !! DOMAIN))]> d1 in
  let e2 := default ∅ (d2 !! DOMAIN) in
  let d3 := <[DOMAIN := <[entry_id :=
                setdefault DATA_COORDINATOR coordinator
                  (default ∅ (e2 !! entry_id))]> e2]> d2 in
  let e3 := default ∅ (d3 !! DOMAIN) in
  let d' := <[DOMAIN := <[entry_id :=
              setdefault DATA_LOCK Lock (default ∅ (e3 !! entry_id))]> e3]> d3 in
  registry_get d' DOMAIN entry_id DATA_COORDINATOR =
    Some (default coordinator
            (registry_get d DOMAIN entry_id DATA_COORDINATOR)) ∧
  registry_get d' DOMAIN entry_id DATA_LOCK =
    Some (default Lock (registry_get d DOMAIN entry_id DATA_LOCK)).
Proof.
  intros Hne. unfold registry_get. cbn zeta.
  destruct (d !! DOMAIN) as [entries|] eqn:E1;
    [destruct (entries !! entry_id) as [entry|] eqn:E2|].
  all: repeat (rewrite ?lookup_insert_eq, ?setdefault_lookup,
                 ?setdefault_lookup_ne, ?E1, ?E2, ?lookup_empty by done;
               cbn [default from_option id mbind option_bind]).
  all: done.
Qed.

(** X13: after setup the registry holds a coordinator and a lock for the
    entry, whatever the refresh attempts gave: the objects created by this
    setup if the entry had none, and otherwise the ones that were already
    registered. *)
Theorem setup_registers_unless_present DOMAIN DATA_COORDINATOR DATA_LOCK
    entry_id config first_refresh w :
  DATA_COORDINATOR ≠ DATA_LOCK →
  let d := w.(hass_data) in
  let d' := (run (async_setup_entry DOMAIN DATA_COORDINATOR DATA_LOCK entry_id
                    (Some config) true first_refresh) w).2.(hass_data) in
  registry_get d' DOMAIN entry_id DATA_COORDINATOR =
    Some (default (Coordinator config)
            (registry_get d DOMAIN entry_id DATA_COORDINATOR)) ∧
  registry_get d' DOMAIN entry_id DATA_LOCK =
    Some (default Lock (registry_get d DOMAIN entry_id DATA_LOCK)).
Proof.
  intros Hne d d'. subst d' d. rewrite setup_registry.
  by apply registered_after_setup.
Qed.

Lemma setup_registers_unless_present_witness :
  registry_get
    (run (async_setup_entry "bluetti_bt" "coordinator" "lock" "entry1"
            (Some example_config) true (λ _, AwaitRaises TimeoutError))
       empty_world).2.(hass_data)
    "bluetti_bt" "entry1" "lock" = Some Lock.
Proof.
  destruct (setup_registers_unless_present "bluetti_bt" "coordinator" "lock"
              "entry1" example_config (λ _, AwaitRaises TimeoutError)
              empty_world) as [_ H]; [done|].
  exact H.
Defined.

(** X14: setup leaves the rest of the registry alone: the data of the other
    domains, the other entries of its own domain, and the other keys of its
    own entry. *)
Theorem setup_leaves_other_entries DOMAIN DATA_COORDINATOR DATA_LOCK
    entry_id config first_refresh w :
  let d := w.(hass_data) in
  let d' := (run (async_setup_entry DOMAIN DATA_COORDINATOR DATA_LOCK entry_id
                    (Some config) true first_refresh) w).2.(hass_data) in
  (∀ domain, domain ≠ DOMAIN → d' !! domain = d !! domain) ∧
  (∀ other, other ≠ entry_id →
     (d' !! DOMAIN ≫= (.!! other)) = (d !! DOMAIN ≫= (.!! other))) ∧
  (∀ key, key ≠ DATA_COORDINATOR → key ≠ DATA_LOCK →
     registry_get d' DOMAIN entry_id key = registry_get d DOMAIN entry_id key).
Proof.
  intros d d'. subst d'. rewrite setup_registry. subst d.
  unfold registry_get. cbn zeta. destruct w as [d tr]. cbn [hass_data].
  split; [|split].
  - intros domain Hne.
    by rewrite !lookup_insert_ne, setdefault_lookup_ne by done.
  - intros other Hne.
    destruct (d !! DOMAIN) as [entries|] eqn:E1.
    all: repeat (rewrite ?lookup_insert_eq, ?setdefault_lookup,
                   ?setdefault_lookup_ne, ?lookup_insert_ne, ?E1,
                   ?lookup_empty by done;
                 cbn [default from_option id mbind option_bind]).
    all: done.
  - intros key Hc Hl.
    destruct (d !! DOMAIN) as [entries|] eqn:E1;
      [destruct (entries !! entry_id) as [entry|] eqn:E2|].
    all: repeat (rewrite ?lookup_insert_eq, ?setdefault_lookup,
                   ?setdefault_lookup_ne, ?E1, ?E2, ?lookup_empty by done;
                 cbn [default from_option id mbind option_bind]).
    all: done.
Qed.

End InitFacts.

(** ** The select platform *)

Module SelectSetupFacts.
Import SelectSetup.

Lemma added_app tr1 tr2 : added (tr1 ++ tr2) = added tr1 ++ added tr2.
Proof. apply omap_app. Qed.

(** The cases in which the platform hands nothing to the host. *)
Ltac nothing_added :=
  cbn [fst snd];
  split; [reflexivity|];
  split; [left; auto|];
  split; intros; auto.

Section Setup.
Variables DOMAIN DATA_COORDINATOR DATA_LOCK MANUFACTURER : string.
Variable get_select_fields : string → library_result (list Select.SelectField).
Variable get_category : string → library_result unit.

(** The loop over the fields stops at the first category that fails and
    otherwise appends one new entity per field. *)
Lemma create_selects_eq config info fields switches_to_add w :
  create_selects get_category config (Some info) fields switches_to_add w =
    match first_failure (λ field, get_category field.(Select.name)) fields with
    | Some x => (Raise x, w)
    | None =>
        (Normal (switches_to_add ++
                 selects_of config info.(Init.info_name) fields), w)
    end.
Proof.
  revert switches_to_add.
  induction fields as [|field rest IH]; intros switches_to_add.
  - cbn. by rewrite app_nil_r.
  - cbn [create_selects first_failure]. unfold mbind, ctl_bind at 1.
    destruct (get_category _) as [[]|x]; cbn [library]; [|done].
    cbv [mret ctl_ret]. unfold mbind, ctl_bind at 1. cbn [BluettiSelect].
    cbv [mret ctl_ret]. rewrite IH.
    destruct (first_failure _ rest); [done|].
    unfold selects_of. cbn [map]. by rewrite <- app_assoc.
Qed.

(** The outcome of the platform setup, case by case. *)
Lemma async_setup_entry_eq entry_id title config w :
  run (async_setup_entry DOMAIN DATA_COORDINATOR DATA_LOCK MANUFACTURER
         get_select_fields get_category entry_id title config) w =
    match Init.registry_get w.(hass_data) DOMAIN entry_id DATA_COORDINATOR,
          Init.registry_get w.(hass_data) DOMAIN entry_id DATA_LOCK with
    | Some coordinator, Some lock =>
        match config with
        | None => (Raised AttributeError, w)
        | Some cfg =>
            if isinstance_PollingCoordinator coordinator then
              let w1 := (logger INFO
                "Creating selects for device with address %s" w).2 in
              match get_select_fields cfg.(Init.name) with
              | Fails x => (Raised x, w1)
              | Gives fields =>
                  match first_failure
                          (λ field, get_category field.(Select.name))
                          fields with
                  | Some x => (Raised x, w1)
                  | None =>
                      (Returned PyNone,
                       (emit (AddEntities (selects_of cfg title fields)) w1).2)
                  end
              end
            else
              (Returned PyNone, (logger ERROR "No coordinator found" w).2)
        end
    | _, _ => (Raised KeyError, w)
    end.
Proof.
  unfold run, async_setup_entry, Init.registry_get.
  cbv [mbind ctl_bind get_hass_data subscript].
  destruct (hass_data w !! DOMAIN) as [entries|]; [|reflexivity].
  cbn [option_bind]. cbv [mret ctl_ret].
  destruct (entries !! entry_id) as [entry|]; [|reflexivity].
  cbn [option_bind]. cbv [mret ctl_ret].
  destruct (entry !! DATA_COORDINATOR) as [coordinator|]; [|reflexivity].
  destruct (entry !! DATA_LOCK) as [lock|]; [|reflexivity].
  destruct config as [cfg|]; [|reflexivity].
  cbn [config_is_None orb].
  destruct (isinstance_PollingCoordinator coordinator); [|reflexivity].
  cbn [negb when]. cbv [mret ctl_ret logger emit].
  cbn [fst snd hass_data trace].
  destruct (get_select_fields _) as [fields|x]; [|reflexivity].
  cbn [library]. cbv [mret ctl_ret]. cbn [Init.device_info].
  rewrite create_selects_eq.
  destruct (first_failure _ fields); reflexivity.
Qed.

(** X15: with a coordinator and a lock in the registry, a configuration and
    a library that answers, the platform hands the host one list with one
    new select per select field of the device, in the order of the fields,
    and returns [None]; the registry is not modified. *)
Theorem platform_setup_adds_one_select_per_field entry_id title cfg fields
    c0 lock w :
  Init.registry_get w.(hass_data) DOMAIN entry_id DATA_COORDINATOR =
    Some (Init.Coordinator c0) →
  Init.registry_get w.(hass_data) DOMAIN entry_id DATA_LOCK = Some lock →
  get_select_fields cfg.(Init.name) = Gives fields →
  first_failure (λ field, get_category field.(Select.name)) fields = None →
  let r := run (async_setup_entry DOMAIN DATA_COORDINATOR DATA_LOCK
                  MANUFACTURER get_select_fields get_category
                  entry_id title (Some cfg)) w in
  r.1 = Returned PyNone ∧
  r.2.(hass_data) = w.(hass_data) ∧
  added r.2.(trace) = added w.(trace) ++ [selects_of cfg title fields] ∧
  error_logged r.2.(trace) = error_logged w.(trace) ∧
  map Select._field (selects_of cfg title fields) = fields ∧
  Forall (λ s, s.(Select._address) = cfg.(Init.address) ∧
               s.(Select._use_encryption) = cfg.(Init.use_encryption) ∧
               s.(Select._unavailable_counter) = 5%Z ∧
               Select.available_ s = false ∧
               s.(Select._write_in_progress) = false)
    (selects_of cfg title fields).
Proof.
  intros Hc Hl Hf Hg r. subst r. rewrite async_setup_entry_eq, Hc, Hl.
  cbn [isinstance_PollingCoordinator]. cbn zeta. rewrite Hf, Hg.
  cbn [fst snd logger emit hass_data trace].
  rewrite <- app_assoc, added_app. unfold error_logged.
  rewrite existsb_app. cbn [added omap existsb app]. rewrite orb_false_r.
  repeat split.
  - unfold selects_of. rewrite map_map. cbn. by rewrite map_id.
  - unfold selects_of. apply Forall_map, Forall_true. done.
Qed.

(** X16: when the registry lacks the coordinator or the lock of the entry,
    the platform setup raises [KeyError] at once: nothing is logged, and
    nothing is handed to the host. *)
Theorem platform_setup_missing_registry entry_id title config w :
  Init.registry_get w.(hass_data) DOMAIN entry_id DATA_COORDINATOR = None ∨
  Init.registry_get w.(hass_data) DOMAIN entry_id DATA_LOCK = None →
  run (async_setup_entry DOMAIN DATA_COORDINATOR DATA_LOCK MANUFACTURER
         get_select_fields get_category entry_id title config) w =
    (Raised KeyError, w).
Proof.
  intros H. rewrite async_setup_entry_eq.
  destruct H as [-> | ->]; [done|]. by destruct (Init.registry_get _ _ _ _).
Qed.

(** X17: without a configuration the platform setup raises [AttributeError]
    when it reads the address for its logger: the guard that would log
    [No coordinator found] and return is not reached. *)
Theorem platform_setup_without_configuration entry_id title w :
  is_Some (Init.registry_get w.(hass_data) DOMAIN entry_id DATA_COORDINATOR) →
  is_Some (Init.registry_get w.(hass_data) DOMAIN entry_id DATA_LOCK) →
  run (async_setup_entry DOMAIN DATA_COORDINATOR DATA_LOCK MANUFACTURER
         get_select_fields get_category entry_id title None) w =
    (Raised AttributeError, w).
Proof.
  intros [c Hc] [l Hl]. by rewrite async_setup_entry_eq, Hc, Hl.
Qed.

(** X18: the platform setup never modifies the registry and hands the host at
    most one list of entities; when it raises, or finds something else than
    a coordinator, it hands over nothing. *)
Theorem platform_setup_all_or_nothing entry_id title config w :
  let r := run (async_setup_entry DOMAIN DATA_COORDINATOR DATA_LOCK
                  MANUFACTURER get_select_fields get_category
                  entry_id title config) w in
  r.2.(hass_data) = w.(hass_data) ∧
  (added r.2.(trace) = added w.(trace) ∨
   ∃ cfg fields,
     config = Some cfg ∧ get_select_fields cfg.(Init.name) = Gives fields ∧
     r.1 = Returned PyNone ∧ error_logged r.2.(trace) = error_logged w.(trace) ∧
     added r.2.(trace) = added w.(trace) ++ [selects_of cfg title fields]) ∧
  (∀ x, r.1 = Raised x → added r.2.(trace) = added w.(trace)) ∧
  (Init.registry_get w.(hass_data) DOMAIN entry_id DATA_COORDINATOR =
     Some Init.Lock → added r.2.(trace) = added w.(trace)).
Proof.
  intros r. subst r. rewrite async_setup_entry_eq.
  assert (Hlog : ∀ level msg,
    added (logger level msg w).2.(trace) = added w.(trace)).
  { intros level msg. cbn. rewrite added_app. cbn. by rewrite app_nil_r. }
  destruct (Init.registry_get _ _ _ DATA_COORDINATOR) as [coordinator|];
    [|nothing_added].
  destruct (Init.registry_get _ _ _ DATA_LOCK) as [lock|]; [|nothing_added].
  destruct config as [cfg|]; [|nothing_added].
  destruct coordinator as [c0|]; cbn [isinstance_PollingCoordinator];
    [|nothing_added].
  cbn zeta. destruct (get_select_fields _) as [fields|x] eqn:Hf;
    [|nothing_added].
  destruct (first_failure _ fields) eqn:Hg; [nothing_added|].
  cbn [fst snd logger emit hass_data trace].
  rewrite <- app_assoc, added_app. unfold error_logged.
  rewrite existsb_app. cbn [added omap existsb app]. rewrite orb_false_r.
  split; [done|]. split; [|split; [done|done]].
  right. by exists cfg, fields.
Qed.

End Setup.

(** X19: the platform setup finds what the integration setup registered.  On
    a registry that holds no foreign object in the place of the
    coordinator, the integration setup followed by the platform setup gives
    the host the selects of the device, also when all the initial refresh
    attempts failed. *)
Theorem integration_then_platform_setup DOMAIN DATA_COORDINATOR DATA_LOCK
    MANUFACTURER get_select_fields get_category entry_id title cfg fields
    first_refresh w tr :
  DATA_COORDINATOR ≠ DATA_LOCK →
  Init.registry_get w.(Init.hass_data) DOMAIN entry_id DATA_COORDINATOR ≠
    Some Init.Lock →
  get_select_fields cfg.(Init.name) = Gives fields →
  first_failure (λ field, get_category field.(Select.name)) fields = None →
  let d' := (run (Init.async_setup_entry DOMAIN DATA_COORDINATOR DATA_LOCK
                    entry_id (Some cfg) true first_refresh) w).2.(Init.hass_data) in
  let r := run (async_setup_entry DOMAIN DATA_COORDINATOR DATA_LOCK
                  MANUFACTURER get_select_fields get_category
                  entry_id title (Some cfg))
             {| hass_data := d'; trace := tr |} in
  r.1 = Returned PyNone ∧
  added r.2.(trace) = added tr ++ [selects_of cfg title fields].
Proof.
  intros Hne Hold Hf Hg d' r. subst r.
  assert (Hreg :
    Init.registry_get d' DOMAIN entry_id DATA_COORDINATOR =
      Some (default (Init.Coordinator cfg)
              (Init.registry_get w.(Init.hass_data) DOMAIN entry_id
                 DATA_COORDINATOR)) ∧
    Init.registry_get d' DOMAIN entry_id DATA_LOCK =
      Some (default Init.Lock
              (Init.registry_get w.(Init.hass_data) DOMAIN entry_id
                 DATA_LOCK))).
  { subst d'. rewrite InitFacts.setup_registry.
    by apply InitFacts.registered_after_setup. }
  destruct Hreg as [Hc Hl].
  rewrite async_setup_entry_eq. cbn [hass_data]. rewrite Hc, Hl.
  assert (Hi : isinstance_PollingCoordinator
    (default (Init.Coordinator cfg)
       (Init.registry_get w.(Init.hass_data) DOMAIN entry_id
          DATA_COORDINATOR)) = true).
  { by destruct (Init.registry_get _ _ _ _) as [[]|]. }
  rewrite Hi. cbn zeta. rewrite Hf, Hg.
  cbn [fst snd logger emit hass_data trace].
  by rewrite <- app_assoc, added_app.
Qed.

Lemma integration_then_platform_setup_witness :
  added
    (run (async_setup_entry "bluetti_bt" "coordinator" "lock" "Bluetti"
            example_get_select_fields example_get_category
            "entry1" "AC180" (Some Init.example_config))
       {| hass_data :=
            (run (Init.async_setup_entry "bluetti_bt" "coordinator" "lock"
                    "entry1" (Some Init.example_config) true
                    (λ _, AwaitRaises TimeoutError))
               Init.empty_world).2.(Init.hass_data);
          trace := [] |}).2.(trace) =
  [[Select.example_entity]].
Proof.
  destruct (integration_then_platform_setup "bluetti_bt" "coordinator" "lock"
              "Bluetti" example_get_select_fields example_get_category
              "entry1" "AC180" Init.example_config [Select.example_field]
              (λ _, AwaitRaises TimeoutError) Init.empty_world [])
    as [_ H]; [done|done|reflexivity|reflexivity|].
  exact H.
Defined.

Lemma platform_setup_adds_one_select_per_field_witness :
  added
    (run (async_setup_entry "bluetti_bt" "coordinator" "lock" "Bluetti"
            example_get_select_fields example_get_category
            "entry1" "AC180" (Some Init.example_config))
       example_world).2.(trace) =
  [[Select.example_entity]].
Proof.
  destruct (platform_setup_adds_one_select_per_field "bluetti_bt"
              "coordinator" "lock" "Bluetti" example_get_select_fields
              example_get_category "entry1" "AC180" Init.example_config
              [Select.example_field] Init.example_config Init.Lock
              example_world)
    as (_&_&H&_); [vm_compute; reflexivity..|].
  exact H.
Defined.

Lemma platform_setup_missing_registry_witness :
  run (async_setup_entry "bluetti_bt" "coordinator" "lock" "Bluetti"
         example_get_select_fields example_get_category
         "entry1" "AC180" (Some Init.example_config))
    {| hass_data := ∅; trace := [] |} =
  (Raised KeyError, {| hass_data := ∅; trace := [] |}).
Proof.
  apply platform_setup_missing_registry. left. reflexivity.
Defined.

Lemma platform_setup_without_configuration_witness :
  run (async_setup_entry "bluetti_bt" "coordinator" "lock" "Bluetti"
         example_get_select_fields example_get_category
         "entry1" "AC180" None) example_world =
  (Raised AttributeError, example_world).
Proof.
  apply platform_setup_without_configuration; vm_compute; eauto.
Defined.

End SelectSetupFacts.
